(** * mDNS-Reflector: the reflection engine and its dedup cache

    A shallow embedding of [reflector/reflector.go] and of the dedup cache
    (package [reflector], [dedupCache]) of sugtao4423/mDNS-Reflector.

    Conventions of the embedding:
    - a Go [uint64] is a [Z] in [[0, 2^64)], with the wrap-around written out;
    - a [time.Time] is a [Z], the reading of the monotonic clock in
      nanoseconds; [Add] is [+], [Before] is [<], [After] is [>];
    - a Go [map] is a [gmap]; a [range] over a map visits its entries in an
      order the language leaves open, so the loops take the visiting order
      as an explicit list of entries;
    - what the operating system and the other goroutines decide (whether a
      join or a write succeeds, what a read returns, whether the shared
      context is already cancelled when it is polled) is an explicit input. *)

From Stdlib Require Import ZArith List Lia Bool.
From Stdlib.Strings Require Import String Ascii Byte.
From stdpp Require Import gmap strings list fin_maps.

Local Open Scope Z_scope.

(** ** hash/fnv: the 64-bit FNV-1a hash of Go's standard library *)

Module Fnv.

Definition offset64 : Z := 14695981039346656037.
Definition prime64 : Z := 1099511628211.

(** [uint64] arithmetic wraps modulo [2^64]. *)
Definition wrap64 (x : Z) : Z := x mod 2 ^ 64.

Definition byte_val (b : byte) : Z := Z.of_N (Byte.to_N b).

(** [fnv.New64a()] *)
Definition New64a : Z := offset64.

(** One round of [sum64a.Write]: [hash ^= uint64(c); hash *= prime64]. *)
Definition write_byte (h : Z) (c : byte) : Z :=
  wrap64 (Z.lxor h (byte_val c) * prime64).

(** [h.Write(data)] *)
Definition Write (h : Z) (data : list byte) : Z :=
  fold_left write_byte data h.

(** [h.Sum64()] *)
Definition Sum64 (h : Z) : Z := h.

End Fnv.

(** ** The dedup cache *)

Module Dedup.

(** Nanoseconds, as in [time.Duration]. *)
Definition second : Z := 1000000000.
Definition dedupWindow : Z := 1 * second.
Definition cleanupInterval : Z := 10 * second.

(** [entries map[uint64]time.Time]; the mutex serialises the calls, which
    is what passing the cache from call to call expresses. *)
Record dedupCache := mkCache { entries : gmap Z Z }.

Definition newDedupCache : dedupCache := mkCache ∅.

(** The key [isDuplicate] computes: the hasher is fed the bytes of the
    interface name, then the packet. *)
Definition fingerprint (srcIface : string) (packet : list byte) : Z :=
  Fnv.Sum64
    (Fnv.Write (Fnv.Write Fnv.New64a (list_byte_of_string srcIface)) packet).

(** [isDuplicate], called when the clock reads [now]: the answer and the
    cache afterwards. *)
Definition isDuplicate (c : dedupCache) (srcIface : string)
    (packet : list byte) (now : Z) : bool * dedupCache :=
  let key := fingerprint srcIface packet in
  if match entries c !! key with
     | Some expireAt => now <? expireAt
     | None => false
     end
  then (true, c)
  else (false, mkCache (<[key := now + dedupWindow]> (entries c))).

(** The body of the [range] loop of [cleanup] for one visited entry. *)
Definition cleanup_entry (now : Z) (m : gmap Z Z) (kv : Z * Z) : gmap Z Z :=
  if now >? snd kv then delete (fst kv) m else m.

(** [cleanup] with the entries visited in the order [order]. *)
Definition cleanup_in (order : list (Z * Z)) (c : dedupCache) (now : Z)
    : dedupCache :=
  mkCache (fold_left (cleanup_entry now) order (entries c)).

(** [cleanup], called when the clock reads [now]. *)
Definition cleanup (c : dedupCache) (now : Z) : dedupCache :=
  cleanup_in (map_to_list (entries c)) c now.

(** [runCleanup]: one [cleanup] per tick of the ticker, at the clock
    readings [ticks], until the context is cancelled. *)
Definition runCleanup (c : dedupCache) (ticks : list Z) : dedupCache :=
  fold_left cleanup ticks c.

End Dedup.

(** ** The reflector *)

Module Reflector.

Import Dedup.

Record UDPAddr := mkAddr { IP : list Z; Port : Z }.

(** [net.ParseIP("224.0.0.251")] *)
Definition mdnsIPv4Addr : list Z := [224; 0; 0; 251].
Definition mdnsPort : Z := 5353.
Definition maxPacketLen : Z := 9000.
Definition shutdownTimeout : Z := 5 * second.

(** [net.Flags]: [FlagUp = 1 << iota] and its successors. *)
Definition FlagUp : Z := 1.
Definition FlagBroadcast : Z := 2.
Definition FlagLoopback : Z := 4.
Definition FlagPointToPoint : Z := 8.
Definition FlagMulticast : Z := 16.

(** The two fields of [net.Interface] the reflector reads. *)
Record Interface := mkIface { Name : string; Flags : Z }.

(** *** The operating system

    Its interface table, its open sockets (a [*net.UDPConn] is the
    descriptor of its socket, each recorded with the interface it joined
    the group on), and what the coming [ListenMulticastUDP] and
    [SetReadBuffer] calls will meet ([true]: the call succeeds; a call
    past the end of its list succeeds). *)
Record Kernel := mkKernel {
  ifaces : list Interface;
  next_fd : nat;
  open : gmap nat string;
  listens : list bool;
  setbufs : list bool
}.

Inductive error :=
| ErrNotFound (name : string)
| ErrDown (name : string)
| ErrNoMulticast (name : string)
| ErrTooFew (got : nat)
| ErrListen
| ErrSetReadBuffer
| ErrJoin (name : string) (cause : error).

(** The errors [NewReflector] builds: the configuration errors. *)
Definition is_configuration_error (e : error) : bool :=
  match e with
  | ErrNotFound _ | ErrDown _ | ErrNoMulticast _ | ErrTooFew _ => true
  | _ => false
  end.

(** [net.InterfaceByName] *)
Definition InterfaceByName (k : Kernel) (name : string) : option Interface :=
  List.find (fun i => bool_decide (Name i = name)) (ifaces k).

(** [net.ListenMulticastUDP("udp4", iface, addr)] *)
Definition ListenMulticastUDP (k : Kernel) (iface : Interface)
    : option nat * Kernel :=
  if hd true (listens k) then
    (Some (next_fd k),
     mkKernel (ifaces k) (S (next_fd k))
              (<[next_fd k := Name iface]> (open k))
              (tl (listens k)) (setbufs k))
  else
    (None,
     mkKernel (ifaces k) (next_fd k) (open k) (tl (listens k)) (setbufs k)).

(** [conn.SetReadBuffer(maxPacketLen)]: [true] when it succeeds. *)
Definition SetReadBuffer (k : Kernel) (conn : nat) : bool * Kernel :=
  (hd true (setbufs k),
   mkKernel (ifaces k) (next_fd k) (open k) (listens k) (tl (setbufs k))).

(** [conn.Close()] *)
Definition Close (k : Kernel) (conn : nat) : Kernel :=
  mkKernel (ifaces k) (next_fd k) (delete conn (open k))
           (listens k) (setbufs k).

(** *** The reflector's own state

    [cancelled] is the state of [ctx] ([true] once [cancel()] has been
    called); [sweeper] and [loops] record the goroutines [Start] has
    handed to [wg]: the cache's [runCleanup] and the receive loops, by
    interface name. *)
Record Reflector := mkReflector {
  interfaces : list Interface;
  conns : gmap string nat;
  dedup : dedupCache;
  debug : bool;
  cancelled : bool;
  sweeper : bool;
  loops : list string
}.

(** The [for] loop of [NewReflector] over the names still to resolve,
    [acc] being [r.interfaces] so far. *)
Fixpoint resolve (k : Kernel) (ifaceNames : list string)
    (acc : list Interface) : error + list Interface :=
  match ifaceNames with
  | [] => inr acc
  | name :: rest =>
      match InterfaceByName k name with
      | None => inl (ErrNotFound name)
      | Some iface =>
          if Z.land (Flags iface) FlagUp =? 0 then inl (ErrDown name)
          else if Z.land (Flags iface) FlagMulticast =? 0
          then inl (ErrNoMulticast name)
          else resolve k rest (acc ++ [iface])
      end
  end.

Definition NewReflector (k : Kernel) (ifaceNames : list string)
    (debug : bool) : (error + Reflector) * Kernel :=
  match resolve k ifaceNames [] with
  | inl e => (inl e, k)
  | inr ifs =>
      if (length ifs <? 2)%nat then (inl (ErrTooFew (length ifs)), k)
      else (inr (mkReflector ifs ∅ newDedupCache debug false false []), k)
  end.

Definition joinMulticast (k : Kernel) (iface : Interface)
    : (error + nat) * Kernel :=
  match ListenMulticastUDP k iface with
  | (None, k1) => (inl ErrListen, k1)
  | (Some conn, k1) =>
      match SetReadBuffer k1 conn with
      | (false, k2) => (inl ErrSetReadBuffer, Close k2 conn)
      | (true, k2) => (inr conn, k2)
      end
  end.

(** [Stop], first half: [r.cancel()]. The bounded wait for the in-flight
    reflections that follows changes neither state. *)
Definition Stop_cancel (r : Reflector) : Reflector :=
  mkReflector (interfaces r) (conns r) (dedup r) (debug r) true
              (sweeper r) (loops r).

(** [Stop], second half, under the write lock: every connection of
    [r.conns] is closed and the map replaced by an empty one. The bounded
    wait for the goroutines of [wg] that follows changes neither state. *)
Definition Stop_close (k : Kernel) (r : Reflector) : Reflector * Kernel :=
  (mkReflector (interfaces r) ∅ (dedup r) (debug r) (cancelled r)
               (sweeper r) (loops r),
   fold_left (fun k' nc => Close k' (snd nc)) (map_to_list (conns r)) k).

Definition Stop (k : Kernel) (r : Reflector) : Reflector * Kernel :=
  Stop_close k (Stop_cancel r).

(** The first [for] loop of [Start] over the interfaces still to join:
    on the first failure [r.Stop()] runs and the error is returned. *)
Fixpoint join_all (k : Kernel) (r : Reflector) (todo : list Interface)
    : (option error * Reflector) * Kernel :=
  match todo with
  | [] => ((None, r), k)
  | iface :: rest =>
      match joinMulticast k iface with
      | (inl err, k1) =>
          let (r1, k2) := Stop k1 r in
          ((Some (ErrJoin (Name iface) err), r1), k2)
      | (inr conn, k1) =>
          join_all k1
            (mkReflector (interfaces r) (<[Name iface := conn]> (conns r))
                         (dedup r) (debug r) (cancelled r)
                         (sweeper r) (loops r))
            rest
      end
  end.

(** [Start]: the joins, then [runCleanup] and one [receiveLoop] per
    entry of [r.interfaces] are started. *)
Definition Start (k : Kernel) (r : Reflector)
    : (option error * Reflector) * Kernel :=
  match join_all k r (interfaces r) with
  | ((Some err, r1), k1) => ((Some err, r1), k1)
  | ((None, r1), k1) =>
      ((None,
        mkReflector (interfaces r1) (conns r1) (dedup r1) (debug r1)
                    (cancelled r1) true (map Name (interfaces r1))),
       k1)
  end.

(** *** The data path

    What the two goroutines of the data path leave behind: the datagrams
    handed to [WriteToUDP], the reflections handed to [shutdownWg], and
    the log lines. *)
Inductive LogLine :=
| LogLoopCancelled (ifaceName : string)
| LogDropShutdown (ifaceName : string)
| LogReadError (ifaceName : string)
| LogSuppressed (n : nat) (ifaceName : string)
| LogReceived (n : nat) (ifaceName : string)
| LogReflectError (ifaceName : string)
| LogReflected (n : nat) (srcIface ifaceName : string).

Inductive Event :=
| EvWrite (ifaceName : string) (conn : nat) (payload : list byte)
          (dst : UDPAddr)
| EvLog (line : LogLine).

(** What happens around one [reflect] call: whether [WriteToUDP] on the
    socket of an interface errors, and whether [cancel()] has been called
    by the time that error is handled ([Stop] cancels without the lock
    [reflect] holds). *)
Record FanoutEnv := mkFanoutEnv {
  write_fails : string -> bool;
  cancel_seen_on_error : string -> bool
}.

Definition dstAddr : UDPAddr := mkAddr mdnsIPv4Addr mdnsPort.

(** The [range r.conns] loop of [reflect] over the entries still to
    visit. *)
Fixpoint fanout (env : FanoutEnv) (dbg : bool) (srcIface : string)
    (packet : list byte) (todo : list (string * nat)) : list Event :=
  match todo with
  | [] => []
  | (ifaceName, conn) :: rest =>
      if decide (ifaceName = srcIface)
      then fanout env dbg srcIface packet rest
      else
        EvWrite ifaceName conn packet dstAddr ::
        (if write_fails env ifaceName then
           if cancel_seen_on_error env ifaceName then []
           else EvLog (LogReflectError ifaceName)
                :: fanout env dbg srcIface packet rest
         else
           (if dbg
            then [EvLog (LogReflected (length packet) srcIface ifaceName)]
            else [])
           ++ fanout env dbg srcIface packet rest)
  end.

(** [reflect] with the entries of [r.conns] visited in the order
    [order]. The read lock keeps [r.conns] as it is for the whole call. *)
Definition reflect_in (order : list (string * nat)) (env : FanoutEnv)
    (r : Reflector) (srcIface : string) (packet : list byte)
    : list Event :=
  if cancelled r then []
  else fanout env (debug r) srcIface packet order.

Definition reflect (env : FanoutEnv) (r : Reflector) (srcIface : string)
    (packet : list byte) : list Event :=
  reflect_in (map_to_list (conns r)) env r srcIface packet.

(** What [conn.ReadFromUDP(buf)] returns: a timeout of the one-second
    deadline, [net.ErrClosed], another error, or a datagram. *)
Inductive ReadResult :=
| ReadTimeout
| ReadClosed
| ReadError
| ReadData (datagram : list byte).

(** What happens around one iteration of a receive loop: whether
    [cancel()] has been called by the time of the poll at the top of the
    loop, what the read returns, whether [cancel()] has been called by
    the time of the poll after the read, and the clock when the dedup
    cache is asked. *)
Record Iteration := mkIteration {
  cancel_seen_top : bool;
  read : ReadResult;
  cancel_seen_after_read : bool;
  clock : Z
}.

(** The state a receive loop works on: the shared dedup cache, the
    reflections it has handed to [shutdownWg.Go], and its log. *)
Record LoopState := mkLoopState {
  cache : dedupCache;
  scheduled : list (string * list byte);
  logged : list LogLine
}.

Inductive LoopStatus := Exited | Reading.

Definition log_if (dbg : bool) (line : LogLine) (st : LoopState)
    : LoopState :=
  if dbg then mkLoopState (cache st) (scheduled st) (logged st ++ [line])
  else st.

(** The [for] loop of [receiveLoop] on the interface named [name], over
    the iterations [its]; when they are used up the loop is where it
    started: about to poll and read again. *)
Fixpoint iterate (dbg done : bool) (name : string) (its : list Iteration)
    (st : LoopState) : LoopStatus * LoopState :=
  match its with
  | [] => (Reading, st)
  | it :: rest =>
      if done || cancel_seen_top it
      then (Exited, log_if dbg (LogLoopCancelled name) st)
      else
        match read it with
        | ReadTimeout => iterate dbg done name rest st
        | ReadClosed => (Exited, st)
        | ReadError => (Exited, log_if true (LogReadError name) st)
        | ReadData datagram =>
            let packet := take (Z.to_nat maxPacketLen) datagram in
            let n := length packet in
            if (n =? 0)%nat then iterate dbg done name rest st
            else if done || cancel_seen_after_read it
            then (Exited, log_if dbg (LogDropShutdown name) st)
            else
              match isDuplicate (cache st) name packet (clock it) with
              | (true, c) =>
                  iterate dbg done name rest
                    (log_if dbg (LogSuppressed n name)
                       (mkLoopState c (scheduled st) (logged st)))
              | (false, c) =>
                  let st1 :=
                    log_if dbg (LogReceived n name)
                      (mkLoopState c (scheduled st) (logged st)) in
                  iterate dbg done name rest
                    (mkLoopState (cache st1)
                                 (scheduled st1 ++ [(name, packet)])
                                 (logged st1))
              end
        end
  end.

(** [receiveLoop]: without a connection for the interface it returns at
    once. *)
Definition receiveLoop (r : Reflector) (iface : Interface)
    (its : list Iteration) (st : LoopState) : LoopStatus * LoopState :=
  match conns r !! Name iface with
  | None => (Exited, st)
  | Some _ => iterate (debug r) (cancelled r) (Name iface) its st
  end.

End Reflector.

Import Fnv Dedup Reflector.

(** * The vocabulary of the properties *)

(** The inverse of [prime64] modulo [2^64]. *)
Definition prime64_inv : Z := 14886173955864302971.

Definition is_uint64 (h : Z) : Prop := 0 <= h < 2 ^ 64.

(** The hash of an interface name alone: the state of the hasher when
    [isDuplicate] starts feeding it the packet. *)
Definition name_hash (srcIface : string) : Z :=
  Fnv.Write Fnv.New64a (list_byte_of_string srcIface).

(** A prior call for [(I1, P)] leaves the answer for [(I2, P)] as it
    would have been without it. *)
Definition independent_at (c : dedupCache) (I1 I2 : string)
    (P : list byte) (t1 t2 : Z) : Prop :=
  fst (isDuplicate (snd (isDuplicate c I1 P t1)) I2 P t2)
  = fst (isDuplicate c I2 P t2).

(** The interface is administratively up (bit 0 of its flags). *)
Definition is_up (i : Interface) : Prop := Z.testbit (Flags i) 0 = true.

(** The interface is multicast capable (bit 4 of its flags). *)
Definition is_multicast (i : Interface) : Prop :=
  Z.testbit (Flags i) 4 = true.

(** The name resolves to an interface that is up and multicast capable. *)
Definition usable (k : Kernel) (name : string) : Prop :=
  exists i, InterfaceByName k name = Some i /\ is_up i /\ is_multicast i.

(** The datagram an event hands to [WriteToUDP], if it is a write. *)
Definition is_write (e : Event)
    : option (string * nat * list byte * UDPAddr) :=
  match e with
  | EvWrite ifaceName conn payload dst => Some (ifaceName, conn, payload, dst)
  | EvLog _ => None
  end.

(** The writes of a trace, in order. *)
Definition writes (evs : list Event)
    : list (string * nat * list byte * UDPAddr) :=
  omap is_write evs.

(** The write [reflect] owes to one entry of [r.conns]. *)
Definition write_to (packet : list byte) (entry : string * nat)
    : string * nat * list byte * UDPAddr :=
  (fst entry, snd entry, packet, dstAddr).

(** The entries of the visiting order other than the ingress one. *)
Definition destinations (srcIface : string) (order : list (string * nat))
    : list (string * nat) :=
  filter (fun entry => fst entry <> srcIface) order.

(** The reflection an iteration schedules: its poll at the top of the
    loop and its poll after the read both found the context live, and
    the read returned the packet. *)
Definition scheduled_by (done : bool) (name : string) (it : Iteration)
    (task : string * list byte) : Prop :=
  done || cancel_seen_top it = false
  /\ done || cancel_seen_after_read it = false
  /\ exists datagram,
       read it = ReadData datagram
       /\ task = (name, take (Z.to_nat maxPacketLen) datagram).

(** An iteration that polls the context and finds it cancelled: at the
    top of the loop, or after a read that returned a packet. *)
Definition observes_cancellation (done : bool) (it : Iteration) : Prop :=
  done || cancel_seen_top it = true
  \/ (exists datagram,
        read it = ReadData datagram
        /\ take (Z.to_nat maxPacketLen) datagram <> []
        /\ done || cancel_seen_after_read it = true).

(** What the sockets of a reflector are to the operating system during
    one [Start]: the sockets open before it ([base]) are those of no
    connection of the reflector and are all still open, and descriptors
    are handed out in increasing order. *)
Record attempt (base : gmap nat string) (k : Kernel) (r : Reflector)
    : Prop := mkAttempt {
  attempt_new : forall name fd, conns r !! name = Some fd ->
                                base !! fd = None;
  attempt_old : forall fd, (forall name, conns r !! name <> Some fd) ->
                           open k !! fd = base !! fd;
  attempt_base_lt : forall fd, is_Some (base !! fd) -> (fd < next_fd k)%nat;
  attempt_conn_lt : forall name fd, conns r !! name = Some fd ->
                                    (fd < next_fd k)%nat
}.

(** ** A host with three usable interfaces *)

(** Up, broadcast and multicast. *)
Definition eth0 : Interface := mkIface "eth0" 19.

Definition eth1 : Interface := mkIface "eth1" 19.

Definition wlan0 : Interface := mkIface "wlan0" 19.

(** Descriptors 0 to 2 are taken; nothing is open yet and every call
    succeeds. *)
Definition host : Kernel := mkKernel [eth0; eth1; wlan0] 3 ∅ [] [].

(** The same host, on which the third [ListenMulticastUDP] fails. *)
Definition host_third_join_fails : Kernel :=
  mkKernel [eth0; eth1; wlan0] 3 ∅ [true; true; false] [].

(** The reflector [NewReflector] builds for a list of interfaces. *)
Definition built (ifs : list Interface) : Reflector :=
  mkReflector ifs ∅ Dedup.newDedupCache false false false [].

(** The reflector for eth0, eth1 and wlan0 once started on [host]:
    sockets 3, 4 and 5. *)
Definition running : Reflector :=
  mkReflector [eth0; eth1; wlan0]
              (<["eth0"%string := 3%nat]>
                 (<["eth1"%string := 4%nat]>
                    (<["wlan0"%string := 5%nat]> ∅)))
              Dedup.newDedupCache false false true
              ["eth0"; "eth1"; "wlan0"]%string.

Definition query : list byte := list_byte_of_string "query".

(** Every write succeeds and no cancellation is seen. *)
Definition calm : FanoutEnv := mkFanoutEnv (fun _ => false) (fun _ => false).

(** The write to eth1 fails; no cancellation is seen. *)
Definition eth1_write_fails : FanoutEnv :=
  mkFanoutEnv (fun name => bool_decide (name = "eth1"%string))
              (fun _ => false).

(** ** The command line: main.go *)

Module Main.

(** [strings.Split(s, ",")] of Go's standard library: the substrings
    between the commas; of a string without a comma, the string alone. *)
Fixpoint Split (s : string) : list string :=
  match s with
  | EmptyString => [EmptyString]
  | String c rest =>
      if Ascii.eqb c ","
      then EmptyString :: Split rest
      else match Split rest with
           | piece :: pieces => String c piece :: pieces
           | [] => [String c EmptyString]
           end
  end.

(** [strings.Join(elems, sep)] of Go's standard library. *)
Fixpoint Join (elems : list string) (sep : string) : string :=
  match elems with
  | [] => EmptyString
  | x :: rest =>
      match rest with
      | [] => x
      | _ => x +:+ sep +:+ Join rest sep
      end
  end.

Definition Version : string := "dev".

(** The flags [-i], [-d], [-l] and [-v], as [flag.Parse] leaves them. *)
Record Options := mkOptions {
  opt_interfaces : string;
  opt_debug : bool;
  showIfaces : bool;
  showVersion : bool
}.

(** The labels [listInterfaces] collects for one interface. *)
Definition flagLabels (iface : Interface) : list string :=
  (if Z.land (Flags iface) FlagUp =? 0 then [] else ["UP"%string])
  ++ (if Z.land (Flags iface) FlagMulticast =? 0 then []
      else ["MULTICAST"%string])
  ++ (if Z.land (Flags iface) FlagLoopback =? 0 then []
      else ["LOOPBACK"%string]).

(** How [main] ends: after printing the version or the interface list,
    by [os.Exit(1)] for want of [-i], by [log.Fatalf] when
    [net.Interfaces], [NewReflector] or [Start] fails, or, once a signal
    has arrived, after [Stop]. *)
Inductive Outcome :=
| ShowedVersion (line : string)
| Listed (lines : list string)
| ListingFailed
| NoInterfaces
| CreateFailed (e : error)
| StartFailed (e : error)
| Stopped (r : Reflector).

Section Program.

(** [strings.TrimSpace] and [iface.Addrs()] (each address printed by its
    [String()], none when the call fails) are left open: what follows
    holds whatever they return. *)
Variable TrimSpace : string -> string.
Variable Addrs : Interface -> list string.

(** The lines [listInterfaces] prints for one interface. *)
Definition interface_lines (iface : Interface) : list string :=
  ("  " +:+ Name iface +:+ ": [" +:+ Join (flagLabels iface) ", " +:+ "]")
  :: (if (0 <? length (Addrs iface))%nat
      then ["    Addresses: " +:+ Join (Addrs iface) ", "]
      else []).

(** [listInterfaces], given what [net.Interfaces()] returns ([None]: an
    error): the lines printed, or [None] for [log.Fatalf]. *)
Definition listInterfaces (listing : option (list Interface))
    : option (list string) :=
  match listing with
  | None => None
  | Some ifs =>
      Some ("Available network interfaces:"%string
            :: "-----------------------------"%string
            :: concat (map interface_lines ifs))
  end.

(** The names [main] hands to [NewReflector]. *)
Definition ifaceNames (o : Options) : list string :=
  map TrimSpace (Split (opt_interfaces o)).

(** [main], for a run in which a signal arrives once the reflector has
    started. *)
Definition main (listing : option (list Interface)) (k : Kernel)
    (o : Options) : Outcome * Kernel :=
  if showVersion o then (ShowedVersion ("mDNS Reflector " +:+ Version), k)
  else if showIfaces o then
    (match listInterfaces listing with
     | Some lines => Listed lines
     | None => ListingFailed
     end, k)
  else if decide (opt_interfaces o = EmptyString) then (NoInterfaces, k)
  else
    match NewReflector k (ifaceNames o) (opt_debug o) with
    | (inl e, k1) => (CreateFailed e, k1)
    | (inr r, k1) =>
        match Start k1 r with
        | ((Some e, _), k2) => (StartFailed e, k2)
        | ((None, r1), k2) =>
            let (r2, k3) := Stop k2 r1 in (Stopped r2, k3)
        end
    end.

End Program.

End Main.

(** ** Runs of the dedup cache *)

(** What the goroutines ask of the cache: a receive loop calls
    [isDuplicate], the sweeper calls [cleanup]; the mutex puts the calls in
    one order. *)
Inductive CacheOp :=
| OpCall (srcIface : string) (packet : list byte) (now : Z)
| OpSweep (now : Z).

Definition op_time (o : CacheOp) : Z :=
  match o with
  | OpCall _ _ now => now
  | OpSweep now => now
  end.

(** The calls of a run that were answered [false] (the packets the loops
    go on to reflect), each with its time, and the cache after the run. *)
Fixpoint replay (c : dedupCache) (ops : list CacheOp)
    : list (string * list byte * Z) * dedupCache :=
  match ops with
  | [] => ([], c)
  | OpCall srcIface packet now :: rest =>
      let (dup, c1) := isDuplicate c srcIface packet now in
      let (passed, c2) := replay c1 rest in
      (if dup then passed else (srcIface, packet, now) :: passed, c2)
  | OpSweep now :: rest => replay (cleanup c now) rest
  end.

(** Two packets passed on with the same fingerprint are at least one
    window apart. *)
Definition spaced (a b : string * list byte * Z) : Prop :=
  fingerprint (fst (fst a)) (snd (fst a))
  = fingerprint (fst (fst b)) (snd (fst b)) ->
  snd a + dedupWindow <= snd b.

(** The clock never runs backwards along a list of readings. *)
Fixpoint clock_monotone (ts : list Z) : Prop :=
  match ts with
  | [] => True
  | t :: rest => Forall (Z.le t) rest /\ clock_monotone rest
  end.

(** ** Sockets and reflectors *)

(** Descriptors are handed out in increasing order: every open socket has
    a descriptor below the next one. *)
Definition descriptors_fresh (k : Kernel) : Prop :=
  forall fd, is_Some (open k !! fd) -> (fd < next_fd k)%nat.

(** Every connection of the reflector is an open socket, joined on the
    interface it is recorded under. *)
Definition owned (k : Kernel) (r : Reflector) : Prop :=
  forall name fd, conns r !! name = Some fd -> open k !! fd = Some name.

(** ** Iterations of a receive loop *)

(** An iteration after which the loop reads again: its poll at the top of
    the loop found the context live, and the read timed out, returned an
    empty datagram, or returned a packet with the context still live. *)
Definition keeps_reading (it : Iteration) : Prop :=
  cancel_seen_top it = false
  /\ match read it with
     | ReadTimeout => True
     | ReadClosed => False
     | ReadError => False
     | ReadData datagram =>
         take (Z.to_nat maxPacketLen) datagram = []
         \/ cancel_seen_after_read it = false
     end.

(** An iteration that reads the datagram with the context live at both
    polls. *)
Definition reads_live (datagram : list byte) (it : Iteration) : Prop :=
  cancel_seen_top it = false
  /\ cancel_seen_after_read it = false
  /\ read it = ReadData datagram.

(** What the loop on the interface [name] may schedule out of the
    iterations [its]: a non-empty packet of at most [maxPacketLen] bytes,
    the beginning of a datagram one of the iterations read, under the name
    of the interface. *)
Definition well_formed_task (name : string) (its : list Iteration)
    (task : string * list byte) : Prop :=
  fst task = name
  /\ snd task <> []
  /\ (length (snd task) <= Z.to_nat maxPacketLen)%nat
  /\ exists it datagram,
       it ∈ its /\ read it = ReadData datagram
       /\ snd task `prefix_of` datagram.

(** The number of commas of a string. *)
Fixpoint commas (s : string) : nat :=
  match s with
  | EmptyString => 0%nat
  | String c rest => if Ascii.eqb c "," then S (commas rest) else commas rest
  end.

(** ** Logging and errors *)

(** The reflector with its debug flag set to [dbg]. *)
Definition with_debug (dbg : bool) (r : Reflector) : Reflector :=
  mkReflector (interfaces r) (conns r) (dedup r) dbg (cancelled r)
              (sweeper r) (loops r).

(** The lines logged whatever the debug flag: the read and write errors. *)
Definition is_error_line (line : LogLine) : bool :=
  match line with
  | LogReadError _ => true
  | LogReflectError _ => true
  | _ => false
  end.

(** A write, or the log of an error. *)
Definition quiet_event (e : Event) : bool :=
  match e with
  | EvWrite _ _ _ _ => true
  | EvLog line => is_error_line line
  end.

(** The error [NewReflector] has for a name that is not usable: the
    checks come in the order found, up, multicast. *)
Definition unusable_error (k : Kernel) (name : string) : error :=
  match InterfaceByName k name with
  | None => ErrNotFound name
  | Some i =>
      if Z.testbit (Flags i) 0 then ErrNoMulticast name else ErrDown name
  end.

(** * Properties *)

Example fnv_a :
  Fnv.Write Fnv.New64a (list_byte_of_string "a") = 12638187200555641996.
Proof. vm_compute. reflexivity. Qed.

(** ** FNV-1a keeps its state in range and each round is injective *)

Section FnvFacts.

Lemma byte_val_range (c : byte) : 0 <= byte_val c < 256.
Proof. destruct c; vm_compute; split; congruence. Qed.

Lemma uint64_high_bits (h : Z) (n : Z) :
  is_uint64 h -> 64 <= n -> Z.testbit h n = false.
Proof.
  intros [Hlo Hhi] Hn.
  rewrite <- (Z.mod_small h (2 ^ 64)) by lia.
  apply Z.mod_pow2_bits_high. lia.
Qed.

Lemma lxor_uint64 (a b : Z) :
  is_uint64 a -> is_uint64 b -> is_uint64 (Z.lxor a b).
Proof.
  intros Ha Hb.
  assert (Hmod : Z.lxor a b mod 2 ^ 64 = Z.lxor a b).
  { apply Z.bits_inj'. intros n Hn.
    destruct (Z.lt_ge_cases n 64) as [Hlt | Hge].
    - rewrite Z.mod_pow2_bits_low by lia. reflexivity.
    - rewrite Z.mod_pow2_bits_high by lia.
      rewrite Z.lxor_spec, !uint64_high_bits by assumption.
      reflexivity. }
  unfold is_uint64. rewrite <- Hmod.
  apply Z.mod_pos_bound. lia.
Qed.

Lemma byte_val_uint64 (c : byte) : is_uint64 (byte_val c).
Proof.
  pose proof (byte_val_range c). unfold is_uint64.
  assert (256 < 2 ^ 64) by (vm_compute; reflexivity). lia.
Qed.

Lemma write_byte_uint64 (h : Z) (c : byte) : is_uint64 (write_byte h c).
Proof. unfold write_byte, wrap64. apply Z.mod_pos_bound. lia. Qed.

Lemma Write_uint64 (data : list byte) (h : Z) :
  is_uint64 h -> is_uint64 (Write h data).
Proof.
  revert h. induction data as [| c data IH]; intros h Hh; simpl.
  - exact Hh.
  - apply IH, write_byte_uint64.
Qed.

Lemma New64a_uint64 : is_uint64 New64a.
Proof. unfold is_uint64, New64a, offset64. split; vm_compute; congruence. Qed.

Lemma lxor_cancel_r (a b c : Z) : Z.lxor a c = Z.lxor b c -> a = b.
Proof.
  intros H.
  assert (Hback : forall x, Z.lxor (Z.lxor x c) c = x).
  { intros x. rewrite Z.lxor_assoc, Z.lxor_nilpotent. apply Z.lxor_0_r. }
  rewrite <- (Hback a), <- (Hback b). congruence.
Qed.

Lemma mul_prime64_inj (x y : Z) :
  is_uint64 x -> is_uint64 y ->
  wrap64 (x * prime64) = wrap64 (y * prime64) -> x = y.
Proof.
  unfold wrap64. intros Hx Hy H.
  assert (Hinv : forall z, (z * prime64 mod 2 ^ 64 * prime64_inv) mod 2 ^ 64
                           = z mod 2 ^ 64).
  { intros z. rewrite Z.mul_mod_idemp_l by lia.
    rewrite <- Z.mul_assoc, <- Z.mul_mod_idemp_r by lia.
    replace ((prime64 * prime64_inv) mod 2 ^ 64) with 1
      by (vm_compute; reflexivity).
    rewrite Z.mul_1_r. reflexivity. }
  pose proof (Hinv x) as Ex. pose proof (Hinv y) as Ey.
  rewrite H in Ex. rewrite Ex in Ey.
  rewrite !Z.mod_small in Ey by assumption. exact Ey.
Qed.

Lemma write_byte_inj (h1 h2 : Z) (c : byte) :
  is_uint64 h1 -> is_uint64 h2 ->
  write_byte h1 c = write_byte h2 c -> h1 = h2.
Proof.
  intros H1 H2 H. unfold write_byte in H.
  apply mul_prime64_inj in H;
    try (apply lxor_uint64; [assumption | apply byte_val_uint64]).
  eapply lxor_cancel_r; eassumption.
Qed.

Lemma Write_inj (data : list byte) (h1 h2 : Z) :
  is_uint64 h1 -> is_uint64 h2 ->
  Write h1 data = Write h2 data -> h1 = h2.
Proof.
  revert h1 h2. induction data as [| c data IH]; intros h1 h2 H1 H2 H.
  - exact H.
  - simpl in H. apply IH in H; try apply write_byte_uint64.
    eapply write_byte_inj; eassumption.
Qed.

Lemma Write_app (h : Z) (a b : list byte) :
  Write h (a ++ b) = Write (Write h a) b.
Proof. unfold Write. apply fold_left_app. Qed.

End FnvFacts.

(** ** The dedup cache *)

Section DedupFacts.

Lemma fingerprint_concat (I : string) (P : list byte) :
  fingerprint I P = Fnv.Write Fnv.New64a (list_byte_of_string I ++ P).
Proof. unfold fingerprint, Fnv.Sum64. symmetry. apply Write_app. Qed.

Lemma fingerprint_eq_iff (I1 I2 : string) (P : list byte) :
  fingerprint I1 P = fingerprint I2 P <-> name_hash I1 = name_hash I2.
Proof.
  unfold fingerprint, Fnv.Sum64, name_hash. split.
  - apply Write_inj; apply Write_uint64, New64a_uint64.
  - intros ->. reflexivity.
Qed.

Lemma isDuplicate_other_key (c : dedupCache) (I : string) (P : list byte)
    (t : Z) (key : Z) :
  key <> fingerprint I P ->
  entries (snd (isDuplicate c I P t)) !! key = entries c !! key.
Proof.
  intros Hne. unfold isDuplicate.
  destruct (entries c !! fingerprint I P) as [e |];
    [destruct (t <? e) |]; simpl; try reflexivity;
    apply lookup_insert_ne; congruence.
Qed.

Lemma isDuplicate_answer (c : dedupCache) (I : string) (P : list byte)
    (t : Z) :
  fst (isDuplicate c I P t)
  = match entries c !! fingerprint I P with
    | Some expireAt => t <? expireAt
    | None => false
    end.
Proof.
  unfold isDuplicate.
  destruct (entries c !! fingerprint I P) as [e |];
    [destruct (t <? e) |]; reflexivity.
Qed.

(** One visited entry never brings a key back. *)
Lemma cleanup_entry_None (now : Z) (m : gmap Z Z) (kv : Z * Z) (key : Z) :
  m !! key = None -> cleanup_entry now m kv !! key = None.
Proof.
  intros H. unfold cleanup_entry. destruct (now >? snd kv); [| exact H].
  rewrite lookup_delete. case_decide; [reflexivity | exact H].
Qed.

Lemma cleanup_fold_None (now : Z) (order : list (Z * Z)) (m : gmap Z Z)
    (key : Z) :
  m !! key = None ->
  fold_left (cleanup_entry now) order m !! key = None.
Proof.
  revert m. induction order as [| kv order IH]; intros m H; simpl.
  - exact H.
  - apply IH, cleanup_entry_None, H.
Qed.

(** A key visited with a passed expiry is gone at the end of the loop. *)
Lemma cleanup_fold_expired (now : Z) (order : list (Z * Z)) (m : gmap Z Z)
    (key expireAt : Z) :
  (key, expireAt) ∈ order -> now > expireAt ->
  fold_left (cleanup_entry now) order m !! key = None.
Proof.
  revert m. induction order as [| kv order IH]; intros m Hin Hgt.
  - inversion Hin.
  - simpl. apply elem_of_cons in Hin as [<- | Hin].
    + apply cleanup_fold_None. unfold cleanup_entry. simpl.
      replace (now >? expireAt) with true by (symmetry; apply Z.gtb_lt; lia).
      apply lookup_delete_eq.
    + apply IH; assumption.
Qed.

(** A key never visited with a passed expiry keeps its entry. *)
Lemma cleanup_fold_live (now : Z) (order : list (Z * Z)) (m : gmap Z Z)
    (key : Z) :
  (forall e, (key, e) ∈ order -> now <= e) ->
  fold_left (cleanup_entry now) order m !! key = m !! key.
Proof.
  revert m. induction order as [| [k e] order IH]; intros m Hall; simpl.
  - reflexivity.
  - rewrite IH by (intros e' He'; apply Hall; right; exact He').
    unfold cleanup_entry. simpl. destruct (now >? e) eqn:Hgt; [| reflexivity].
    apply lookup_delete_ne. intros ->.
    apply Z.gtb_lt in Hgt. specialize (Hall e (list_elem_of_here _ _)). lia.
Qed.

End DedupFacts.

Section DedupClaims.

(** C2. When nothing is recorded under the fingerprint of [(I, P)], the
    first [isDuplicate(I, P)], at time [t1], answers false and records
    the expiry [t1 + 1s]; a second call at a time [t2] before that expiry
    answers true and leaves the whole cache, the stored expiry included,
    as it was; a call at a time [t3] strictly after the expiry answers
    false again and records [t3 + 1s]. *)
Theorem isDuplicate_first_second_after (c : dedupCache) (I : string)
    (P : list byte) (t1 t2 t3 : Z) :
  entries c !! fingerprint I P = None ->
  t2 < t1 + dedupWindow ->
  t1 + dedupWindow < t3 ->
  dedupWindow = 1000000000
  /\ isDuplicate c I P t1
     = (false, mkCache (<[fingerprint I P := t1 + dedupWindow]> (entries c)))
  /\ isDuplicate (snd (isDuplicate c I P t1)) I P t2
     = (true, snd (isDuplicate c I P t1))
  /\ isDuplicate (snd (isDuplicate c I P t1)) I P t3
     = (false,
        mkCache (<[fingerprint I P := t3 + dedupWindow]>
                   (entries (snd (isDuplicate c I P t1))))).
Proof.
  intros Hfresh H2 H3.
  assert (E1 : isDuplicate c I P t1
               = (false,
                  mkCache (<[fingerprint I P := t1 + dedupWindow]>
                             (entries c)))).
  { unfold isDuplicate. rewrite Hfresh. reflexivity. }
  split; [reflexivity |]. split; [exact E1 |].
  rewrite E1. simpl. unfold isDuplicate. simpl.
  rewrite lookup_insert_eq.
  replace (t2 <? t1 + dedupWindow) with true by (symmetry; apply Z.ltb_lt; lia).
  replace (t3 <? t1 + dedupWindow) with false by (symmetry; apply Z.ltb_ge; lia).
  split; reflexivity.
Qed.

(** C2 on a new cache: a query seen on eth0 at time 0, again just before
    one second has passed, and again just after. *)
Lemma isDuplicate_first_second_after_witness :
  fst (isDuplicate newDedupCache "eth0" query 0) = false
  /\ fst (isDuplicate (snd (isDuplicate newDedupCache "eth0" query 0))
            "eth0" query 999999999) = true
  /\ fst (isDuplicate (snd (isDuplicate newDedupCache "eth0" query 0))
            "eth0" query 1000000001) = false.
Proof.
  destruct (isDuplicate_first_second_after newDedupCache "eth0" query
              0 999999999 1000000001) as (_ & E1 & E2 & E3).
  - reflexivity.
  - vm_compute. reflexivity.
  - vm_compute. reflexivity.
  - split; [rewrite E1; reflexivity |].
    split; [rewrite E2 | rewrite E3]; reflexivity.
Defined.

(** C7. Whatever the order in which the sweep visits the entries, after
    one [cleanup] at time [now] every entry whose expiry has passed
    ([now] is after it) is absent, every other entry is present with the
    expiry it had, and no other key has appeared. *)
Theorem cleanup_removes_exactly_the_expired (c : dedupCache) (now : Z)
    (order : list (Z * Z)) :
  order ≡ₚ map_to_list (entries c) ->
  (forall key expireAt, entries c !! key = Some expireAt ->
     now > expireAt -> entries (cleanup_in order c now) !! key = None)
  /\ (forall key expireAt, entries c !! key = Some expireAt ->
        now <= expireAt ->
        entries (cleanup_in order c now) !! key = Some expireAt)
  /\ (forall key, entries c !! key = None ->
        entries (cleanup_in order c now) !! key = None).
Proof.
  intros Hperm. unfold cleanup_in. simpl. repeat split.
  - intros key e Hk Hgt. apply cleanup_fold_expired with (expireAt := e).
    + rewrite Hperm. apply elem_of_map_to_list. exact Hk.
    + exact Hgt.
  - intros key e Hk Hle. rewrite cleanup_fold_live; [exact Hk |].
    intros e' He'. rewrite Hperm in He'.
    apply elem_of_map_to_list in He'. congruence.
  - intros key Hk. apply cleanup_fold_None. exact Hk.
Qed.

(** C7 on a cache of two entries, swept between their expiries. *)
Lemma cleanup_removes_exactly_the_expired_witness :
  entries (cleanup (mkCache (<[7 := 10]> (<[8 := 30]> ∅))) 20) !! 7 = None
  /\ entries (cleanup (mkCache (<[7 := 10]> (<[8 := 30]> ∅))) 20) !! 8
     = Some 30.
Proof.
  pose proof (cleanup_removes_exactly_the_expired
                (mkCache (<[7 := 10]> (<[8 := 30]> ∅))) 20
                (map_to_list (<[7 := 10]> (<[8 := 30]> ∅)))
                (reflexivity _)) as (Hgone & Hkept & _).
  split.
  - apply (Hgone 7 10); [vm_compute; reflexivity | lia].
  - apply (Hkept 8 30); [vm_compute; reflexivity | lia].
Defined.

End DedupClaims.

Section FingerprintClaims.

(** C8, as stated, fails: two distinct interface names with the same
    FNV-64a hash share every fingerprint, so a packet first seen on the
    one is reported as a duplicate on the other. *)
Lemma isDuplicate_colliding_names_not_independent :
  "vethtzDGctb3jn2"%string <> "vethjqCMBfsFB83"%string
  /\ fst (isDuplicate newDedupCache "vethjqCMBfsFB83" query 500000000)
     = false
  /\ fst (isDuplicate
            (snd (isDuplicate newDedupCache "vethtzDGctb3jn2" query 0))
            "vethjqCMBfsFB83" query 500000000)
     = true
  /\ ~ independent_at newDedupCache "vethtzDGctb3jn2" "vethjqCMBfsFB83"
         query 0 500000000.
Proof.
  assert (Hwithout :
    fst (isDuplicate newDedupCache "vethjqCMBfsFB83" query 500000000)
    = false)
    by (vm_compute; reflexivity).
  assert (Hwith :
    fst (isDuplicate
           (snd (isDuplicate newDedupCache "vethtzDGctb3jn2" query 0))
           "vethjqCMBfsFB83" query 500000000)
    = true)
    by (vm_compute; reflexivity).
  repeat split; try assumption.
  - discriminate.
  - unfold independent_at. rewrite Hwith, Hwithout. discriminate.
Qed.

(** C8, amended. For interfaces [I1] and [I2] whose names have different
    FNV-64a hashes and every payload [P], a prior [isDuplicate(I1, P)]
    changes neither the answer of a later [isDuplicate(I2, P)] nor the
    entry it consults. *)
Theorem isDuplicate_independent_across_interfaces (c : dedupCache)
    (I1 I2 : string) (P : list byte) (t1 t2 : Z) :
  name_hash I1 <> name_hash I2 ->
  independent_at c I1 I2 P t1 t2
  /\ entries (snd (isDuplicate c I1 P t1)) !! fingerprint I2 P
     = entries c !! fingerprint I2 P.
Proof.
  intros Hne.
  assert (Hkey : fingerprint I2 P <> fingerprint I1 P).
  { intros E. apply Hne. symmetry. apply (fingerprint_eq_iff I2 I1 P), E. }
  assert (Hsame : entries (snd (isDuplicate c I1 P t1)) !! fingerprint I2 P
                  = entries c !! fingerprint I2 P)
    by (apply isDuplicate_other_key, Hkey).
  split; [| exact Hsame].
  unfold independent_at. rewrite !isDuplicate_answer, Hsame. reflexivity.
Qed.

(** C8, amended, for eth0 and wlan0. *)
Lemma isDuplicate_independent_across_interfaces_witness :
  independent_at newDedupCache "eth0" "wlan0" query 0 500000000.
Proof.
  apply (isDuplicate_independent_across_interfaces newDedupCache
           "eth0" "wlan0" query 0 500000000).
  vm_compute. discriminate.
Defined.

(** C10. The fingerprint is the FNV-64a hash of the bytes of the
    interface name followed directly by the payload. Interface "ab" with
    payload "c" and interface "a" with payload "bc" are distinct pairs
    with the same concatenation; any two pairs with the same
    concatenation have the same fingerprint, and once [isDuplicate] has
    recorded one of them it reports the other as a duplicate until the
    recorded expiry. *)
Theorem fingerprint_has_no_separator :
  (forall I P,
     fingerprint I P = Fnv.Write Fnv.New64a (list_byte_of_string I ++ P))
  /\ (("ab"%string, list_byte_of_string "c")
      <> ("a"%string, list_byte_of_string "bc")
      /\ list_byte_of_string "ab" ++ list_byte_of_string "c"
         = list_byte_of_string "a" ++ list_byte_of_string "bc")
  /\ (forall I1 P1 I2 P2 c t t',
        list_byte_of_string I1 ++ P1 = list_byte_of_string I2 ++ P2 ->
        fst (isDuplicate c I1 P1 t) = false ->
        t' < t + dedupWindow ->
        fingerprint I1 P1 = fingerprint I2 P2
        /\ isDuplicate (snd (isDuplicate c I1 P1 t)) I2 P2 t'
           = (true, snd (isDuplicate c I1 P1 t))).
Proof.
  split; [exact fingerprint_concat |].
  split; [split; [discriminate | reflexivity] |].
  intros I1 P1 I2 P2 c t t' Hcat Hrec Hin.
  assert (Hfp : fingerprint I1 P1 = fingerprint I2 P2)
    by (rewrite !fingerprint_concat, Hcat; reflexivity).
  split; [exact Hfp |].
  assert (Hstored :
    entries (snd (isDuplicate c I1 P1 t)) !! fingerprint I1 P1
    = Some (t + dedupWindow)).
  { revert Hrec. unfold isDuplicate.
    destruct (entries c !! fingerprint I1 P1) as [e |];
      [destruct (t <? e) |]; simpl; try discriminate;
      intros _; apply lookup_insert_eq. }
  unfold isDuplicate at 1. rewrite <- Hfp, Hstored.
  replace (t' <? t + dedupWindow) with true
    by (symmetry; apply Z.ltb_lt; lia).
  reflexivity.
Qed.

(** C10 on a new cache: "ab" with "c" is recorded, then "a" with "bc" is
    reported as a duplicate half a second later. *)
Lemma fingerprint_has_no_separator_witness :
  fst (isDuplicate
         (snd (isDuplicate newDedupCache "ab" (list_byte_of_string "c") 0))
         "a" (list_byte_of_string "bc") 500000000) = true.
Proof.
  destruct fingerprint_has_no_separator as (_ & _ & Hdup).
  destruct (Hdup "ab"%string (list_byte_of_string "c")
                 "a"%string (list_byte_of_string "bc")
                 newDedupCache 0 500000000) as [_ E].
  - reflexivity.
  - vm_compute. reflexivity.
  - vm_compute. reflexivity.
  - rewrite E. reflexivity.
Defined.

End FingerprintClaims.

(** ** Construction *)

Section ConstructionFacts.

(** A flag is tested by masking with its power of two. *)
Lemma land_pow2_eq_0 (flags n : Z) :
  0 <= n -> (Z.land flags (2 ^ n) = 0 <-> Z.testbit flags n = false).
Proof.
  intros Hn. split.
  - intros H.
    assert (Hbit : Z.testbit (Z.land flags (2 ^ n)) n = false)
      by (rewrite H; apply Z.bits_0).
    rewrite Z.land_spec, Z.pow2_bits_true, andb_true_r in Hbit by lia.
    exact Hbit.
  - intros H. apply Z.bits_inj'. intros m Hm.
    rewrite Z.land_spec, Z.bits_0, Z.pow2_bits_eqb by lia.
    destruct (Z.eqb_spec n m) as [-> | _].
    + rewrite H. reflexivity.
    + apply andb_false_r.
Qed.

Lemma InterfaceByName_Name (k : Kernel) (name : string) (i : Interface) :
  InterfaceByName k name = Some i -> Name i = name.
Proof.
  unfold InterfaceByName. intros H. apply find_some in H as [_ H].
  apply bool_decide_eq_true in H. exact H.
Qed.

Lemma up_test (i : Interface) :
  (Z.land (Flags i) FlagUp =? 0) = false <-> is_up i.
Proof.
  unfold is_up. rewrite Z.eqb_neq.
  change FlagUp with (2 ^ 0). rewrite land_pow2_eq_0 by lia.
  destruct (Z.testbit (Flags i) 0); split; congruence.
Qed.

Lemma multicast_test (i : Interface) :
  (Z.land (Flags i) FlagMulticast =? 0) = false <-> is_multicast i.
Proof.
  unfold is_multicast. rewrite Z.eqb_neq.
  change FlagMulticast with (2 ^ 4). rewrite land_pow2_eq_0 by lia.
  destruct (Z.testbit (Flags i) 4); split; congruence.
Qed.

(** The loop gets through a list of usable names, appending one
    interface per name. *)
Lemma resolve_usable (k : Kernel) (ifaceNames : list string)
    (acc : list Interface) :
  Forall (usable k) ifaceNames ->
  exists ifs, resolve k ifaceNames acc = inr (acc ++ ifs)
              /\ map Name ifs = ifaceNames.
Proof.
  revert acc. induction ifaceNames as [| name rest IH]; intros acc Hall.
  - exists []. simpl. rewrite app_nil_r. split; reflexivity.
  - apply Forall_cons in Hall as [(i & Hi & Hup & Hmc) Hrest].
    simpl. rewrite Hi.
    apply up_test in Hup. apply multicast_test in Hmc. rewrite Hup, Hmc.
    destruct (IH (acc ++ [i]) Hrest) as (ifs & E & Hnames).
    exists (i :: ifs). rewrite E, <- app_assoc. simpl. split; [reflexivity |].
    rewrite Hnames. f_equal. eapply InterfaceByName_Name, Hi.
Qed.

(** The loop stops with a configuration error at the first name that is
    not usable. *)
Lemma resolve_unusable (k : Kernel) (ifaceNames : list string)
    (acc : list Interface) :
  Exists (fun name => ~ usable k name) ifaceNames ->
  exists e, resolve k ifaceNames acc = inl e
            /\ is_configuration_error e = true.
Proof.
  revert acc. induction ifaceNames as [| name rest IH]; intros acc Hex.
  - inversion Hex.
  - simpl. destruct (InterfaceByName k name) as [i |] eqn:Hi.
    2: { eexists. split; reflexivity. }
    destruct (Z.land (Flags i) FlagUp =? 0) eqn:Hup.
    { eexists. split; reflexivity. }
    destruct (Z.land (Flags i) FlagMulticast =? 0) eqn:Hmc.
    { eexists. split; reflexivity. }
    apply Exists_cons in Hex as [Hbad | Hrest].
    + exfalso. apply Hbad. exists i.
      split; [exact Hi |]. split; [apply up_test | apply multicast_test];
        assumption.
    + apply IH, Hrest.
Qed.

Lemma usable_dec (k : Kernel) (name : string) :
  {usable k name} + {~ usable k name}.
Proof.
  destruct (InterfaceByName k name) as [i |] eqn:Hi.
  - destruct (Z.testbit (Flags i) 0) eqn:Hup;
      [destruct (Z.testbit (Flags i) 4) eqn:Hmc |].
    + left. exists i. repeat split; assumption.
    + right. intros (j & Hj & _ & Hm). unfold is_multicast in Hm.
      congruence.
    + right. intros (j & Hj & Hu & _). unfold is_up in Hu. congruence.
  - right. intros (j & Hj & _). congruence.
Qed.

End ConstructionFacts.

Section ConstructionClaims.

(** C3. [NewReflector] opens no socket (it leaves the operating system
    as it found it). It fails, with a configuration error, whenever some
    name of the list does not resolve to an interface that is up and
    multicast capable, or the list has fewer than two entries; otherwise
    it succeeds, with one interface per name, no connection and a live
    context. *)
Theorem NewReflector_fails_or_succeeds (k : Kernel)
    (ifaceNames : list string) (dbg : bool) :
  snd (NewReflector k ifaceNames dbg) = k
  /\ (Exists (fun name => ~ usable k name) ifaceNames
      \/ (length ifaceNames < 2)%nat ->
      exists e, fst (NewReflector k ifaceNames dbg) = inl e
                /\ is_configuration_error e = true)
  /\ (Forall (usable k) ifaceNames -> (2 <= length ifaceNames)%nat ->
      exists r, fst (NewReflector k ifaceNames dbg) = inr r
                /\ map Name (interfaces r) = ifaceNames
                /\ conns r = ∅
                /\ cancelled r = false).
Proof.
  split; [| split].
  - unfold NewReflector. destruct (resolve k ifaceNames []) as [e | ifs];
      [reflexivity |]. destruct (length ifs <? 2)%nat; reflexivity.
  - intros Hbad.
    destruct (List.Exists_dec (fun name => ~ usable k name) ifaceNames)
      as [Hex | Hall].
    { intros name. destruct (usable_dec k name); [right | left]; tauto. }
    + destruct (resolve_unusable k ifaceNames [] Hex) as (e & E & He).
      exists e. unfold NewReflector. rewrite E. split; [reflexivity | exact He].
    + destruct Hbad as [Hex | Hshort]; [contradiction |].
      assert (Hall' : Forall (usable k) ifaceNames).
      { apply Forall_forall. intros name Hin.
        destruct (usable_dec k name) as [Hu | Hn]; [exact Hu |].
        exfalso. apply Hall, Exists_exists. exists name. tauto. }
      destruct (resolve_usable k ifaceNames [] Hall') as (ifs & E & Hn).
      simpl in E. unfold NewReflector. rewrite E.
      assert (Hlen : length ifs = length ifaceNames)
        by (rewrite <- Hn; symmetry; apply length_map).
      replace (length ifs <? 2)%nat with true
        by (symmetry; apply Nat.ltb_lt; lia).
      eexists. split; reflexivity.
  - intros Hall Hlen.
    destruct (resolve_usable k ifaceNames [] Hall) as (ifs & E & Hn).
    simpl in E. unfold NewReflector. rewrite E.
    assert (Hl : length ifs = length ifaceNames)
      by (rewrite <- Hn; symmetry; apply length_map).
    replace (length ifs <? 2)%nat with false
      by (symmetry; apply Nat.ltb_ge; lia).
    eexists. split; [reflexivity |]. simpl. repeat split. exact Hn.
Qed.

(** C3 on the host: one name is refused, two usable names are accepted. *)
Lemma NewReflector_fails_or_succeeds_witness :
  (exists e, fst (NewReflector host ["eth0"]%string false) = inl e
             /\ is_configuration_error e = true)
  /\ (exists r, fst (NewReflector host ["eth0"; "wlan0"]%string false) = inr r
                /\ map Name (interfaces r) = ["eth0"; "wlan0"]%string
                /\ conns r = ∅
                /\ cancelled r = false).
Proof.
  split.
  - destruct (NewReflector_fails_or_succeeds host ["eth0"]%string false)
      as (_ & Hfail & _).
    apply Hfail. right. simpl. lia.
  - destruct (NewReflector_fails_or_succeeds host ["eth0"; "wlan0"]%string
                false) as (_ & _ & Hok).
    apply Hok.
    + repeat constructor.
      * exists eth0. repeat split.
      * exists wlan0. repeat split.
    + simpl. lia.
Defined.

End ConstructionClaims.

(** ** The fan-out *)

Section FanoutFacts.

Context (env : FanoutEnv) (dbg : bool) (srcIface : string)
        (packet : list byte).

Lemma writes_app (a b : list Event) : writes (a ++ b) = writes a ++ writes b.
Proof. unfold writes. apply omap_app. Qed.

Lemma writes_debug_line (on : bool) (line : LogLine) :
  writes (if on then [EvLog line] else []) = [].
Proof. destruct on; reflexivity. Qed.

Lemma writes_cons_write (ifaceName : string) (conn : nat)
    (payload : list byte) (dst : UDPAddr) (evs : list Event) :
  writes (EvWrite ifaceName conn payload dst :: evs)
  = (ifaceName, conn, payload, dst) :: writes evs.
Proof. reflexivity. Qed.

(** The ingress entry is passed over. *)
Lemma fanout_ingress (conn : nat) (rest : list (string * nat)) :
  fanout env dbg srcIface packet ((srcIface, conn) :: rest)
  = fanout env dbg srcIface packet rest.
Proof.
  simpl. destruct (decide (srcIface = srcIface)); [reflexivity | contradiction].
Qed.

(** Any other entry is written to; what follows depends on the outcome. *)
Lemma fanout_destination (ifaceName : string) (conn : nat)
    (rest : list (string * nat)) :
  ifaceName <> srcIface ->
  fanout env dbg srcIface packet ((ifaceName, conn) :: rest)
  = EvWrite ifaceName conn packet dstAddr
    :: (if write_fails env ifaceName then
          if cancel_seen_on_error env ifaceName then []
          else EvLog (LogReflectError ifaceName)
               :: fanout env dbg srcIface packet rest
        else
          (if dbg
           then [EvLog (LogReflected (length packet) srcIface ifaceName)]
           else [])
          ++ fanout env dbg srcIface packet rest).
Proof.
  intros Hne. simpl.
  destruct (decide (ifaceName = srcIface)); [contradiction | reflexivity].
Qed.

(** The writes that follow the write to a destination. *)
Lemma writes_after_destination (ifaceName : string)
    (rest : list (string * nat)) :
  writes (if write_fails env ifaceName then
            if cancel_seen_on_error env ifaceName then []
            else EvLog (LogReflectError ifaceName)
                 :: fanout env dbg srcIface packet rest
          else
            (if dbg
             then [EvLog (LogReflected (length packet) srcIface ifaceName)]
             else [])
            ++ fanout env dbg srcIface packet rest)
  = if write_fails env ifaceName && cancel_seen_on_error env ifaceName
    then []
    else writes (fanout env dbg srcIface packet rest).
Proof.
  destruct (write_fails env ifaceName); simpl.
  - destruct (cancel_seen_on_error env ifaceName); reflexivity.
  - rewrite writes_app, writes_debug_line. reflexivity.
Qed.

(** Without cancellation the loop writes to every destination, whatever
    the writes return. *)
Lemma fanout_writes_all (order : list (string * nat)) :
  (forall ifaceName, cancel_seen_on_error env ifaceName = false) ->
  writes (fanout env dbg srcIface packet order)
  = map (write_to packet) (destinations srcIface order).
Proof.
  intros Hlive. unfold destinations.
  induction order as [| [ifaceName conn] rest IH]; [reflexivity |].
  destruct (decide (ifaceName = srcIface)) as [-> | Hne].
  - rewrite fanout_ingress, filter_cons_False by (simpl; tauto). exact IH.
  - rewrite fanout_destination, filter_cons_True by exact Hne.
    rewrite writes_cons_write, writes_after_destination, Hlive, andb_false_r.
    rewrite IH. reflexivity.
Qed.

(** Every write of the loop goes to an entry other than the ingress one
    and carries the packet to the mDNS group. *)
Lemma fanout_writes_sound (order : list (string * nat))
    (w : string * nat * list byte * UDPAddr) :
  w ∈ writes (fanout env dbg srcIface packet order) ->
  exists entry, entry ∈ order /\ fst entry <> srcIface
                /\ w = write_to packet entry.
Proof.
  induction order as [| [ifaceName conn] rest IH].
  - intros H. inversion H.
  - assert (Hrest : w ∈ writes (fanout env dbg srcIface packet rest) ->
                    exists entry, entry ∈ (ifaceName, conn) :: rest
                                  /\ fst entry <> srcIface
                                  /\ w = write_to packet entry).
    { intros H. destruct (IH H) as (entry & Hin & Hsrc & Hw).
      exists entry. split; [right; exact Hin | tauto]. }
    destruct (decide (ifaceName = srcIface)) as [-> | Hne].
    + rewrite fanout_ingress. exact Hrest.
    + rewrite fanout_destination, writes_cons_write, writes_after_destination
        by exact Hne.
      intros H. apply elem_of_cons in H as [-> | H].
      * exists (ifaceName, conn). split; [left | split; [exact Hne | reflexivity]].
      * destruct (write_fails env ifaceName && cancel_seen_on_error env ifaceName);
          [inversion H | exact (Hrest H)].
Qed.

(** Without cancellation a failed write is logged. *)
Lemma fanout_logs_failure (order : list (string * nat))
    (ifaceName : string) (conn : nat) :
  (forall name, cancel_seen_on_error env name = false) ->
  (ifaceName, conn) ∈ order -> ifaceName <> srcIface ->
  write_fails env ifaceName = true ->
  EvLog (LogReflectError ifaceName) ∈ fanout env dbg srcIface packet order.
Proof.
  intros Hlive Hin Hne Hfail.
  induction order as [| [name c] rest IH]; [inversion Hin |].
  destruct (decide (name = srcIface)) as [-> | Hn].
  - rewrite fanout_ingress.
    apply elem_of_cons in Hin as [E | Hin]; [congruence | apply IH, Hin].
  - rewrite fanout_destination by exact Hn. right. rewrite Hlive.
    apply elem_of_cons in Hin as [E | Hin].
    + injection E as <- <-. rewrite Hfail. left.
    + destruct (write_fails env name).
      * right. apply IH, Hin.
      * apply elem_of_app. right. apply IH, Hin.
Qed.

(** A failed write that meets cancellation is not logged. *)
Lemma fanout_silent_abort (order : list (string * nat))
    (ifaceName : string) :
  cancel_seen_on_error env ifaceName = true ->
  EvLog (LogReflectError ifaceName) ∉ fanout env dbg srcIface packet order.
Proof.
  intros Hseen.
  induction order as [| [name c] rest IH].
  - apply not_elem_of_nil.
  - destruct (decide (name = srcIface)) as [-> | Hn].
    + rewrite fanout_ingress. exact IH.
    + rewrite fanout_destination by exact Hn.
      intros H. apply elem_of_cons in H as [E | H]; [discriminate |].
      destruct (write_fails env name).
      * destruct (cancel_seen_on_error env name) eqn:Hs.
        -- inversion H.
        -- apply elem_of_cons in H as [E | H]; [| exact (IH H)].
           injection E as <-. congruence.
      * apply elem_of_app in H as [H | H]; [| exact (IH H)].
        destruct dbg; [| inversion H].
        apply list_elem_of_singleton in H. discriminate.
Qed.

(** A destination the loop never wrote to was cut off by an earlier
    failed write that met cancellation. *)
Lemma fanout_skipped (order : list (string * nat)) (ifaceName : string)
    (conn : nat) :
  (ifaceName, conn) ∈ order -> ifaceName <> srcIface ->
  write_to packet (ifaceName, conn)
    ∉ writes (fanout env dbg srcIface packet order) ->
  exists name c,
    (name, c) ∈ order /\ name <> srcIface
    /\ write_fails env name = true
    /\ cancel_seen_on_error env name = true
    /\ write_to packet (name, c)
         ∈ writes (fanout env dbg srcIface packet order).
Proof.
  intros Hin Hne.
  induction order as [| [name c] rest IH]; [inversion Hin |].
  destruct (decide (name = srcIface)) as [-> | Hn].
  - rewrite fanout_ingress.
    apply elem_of_cons in Hin as [E | Hin]; [congruence |].
    intros Hnot. destruct (IH Hin Hnot) as (n' & c' & H1 & H2).
    exists n', c'. split; [right; exact H1 | exact H2].
  - rewrite fanout_destination, writes_cons_write, writes_after_destination
      by exact Hn.
    intros Hnot.
    apply elem_of_cons in Hin as [E | Hin].
    { exfalso. apply Hnot. injection E as <- <-. left. }
    destruct (write_fails env name) eqn:Hfail;
      [destruct (cancel_seen_on_error env name) eqn:Hseen |]; simpl in *.
    + exists name, c. repeat split; try assumption; left.
    + destruct (IH Hin) as (n' & c' & H1 & H2 & H3 & H4 & H5).
      { intros H. apply Hnot. right. exact H. }
      exists n', c'. repeat split; try assumption; right; assumption.
    + destruct (IH Hin) as (n' & c' & H1 & H2 & H3 & H4 & H5).
      { intros H. apply Hnot. right. exact H. }
      exists n', c'. repeat split; try assumption; right; assumption.
Qed.

End FanoutFacts.


(** ** The receive loop *)

Section LoopFacts.

Lemma log_if_scheduled (dbg : bool) (line : LogLine) (st : LoopState) :
  scheduled (log_if dbg line st) = scheduled st.
Proof. destruct dbg; reflexivity. Qed.

Lemma log_if_cache (dbg : bool) (line : LogLine) (st : LoopState) :
  cache (log_if dbg line st) = cache st.
Proof. destruct dbg; reflexivity. Qed.

Lemma length_zero_nil {A : Type} (l : list A) :
  (length l =? 0)%nat = false <-> l <> [].
Proof.
  destruct l; simpl; split; intros H; congruence.
Qed.

Lemma iterate_exit_top (dbg done : bool) (name : string) (it : Iteration)
    (rest : list Iteration) (st : LoopState) :
  done || cancel_seen_top it = true ->
  iterate dbg done name (it :: rest) st
  = (Exited, log_if dbg (LogLoopCancelled name) st).
Proof. intros H. simpl. rewrite H. reflexivity. Qed.

Lemma iterate_exit_after_read (dbg done : bool) (name : string)
    (it : Iteration) (rest : list Iteration) (st : LoopState)
    (datagram : list byte) :
  done || cancel_seen_top it = false ->
  read it = ReadData datagram ->
  take (Z.to_nat maxPacketLen) datagram <> [] ->
  done || cancel_seen_after_read it = true ->
  iterate dbg done name (it :: rest) st
  = (Exited, log_if dbg (LogDropShutdown name) st).
Proof.
  intros Htop Hread Hlen Hpost. simpl. rewrite Htop, Hread.
  apply length_zero_nil in Hlen. rewrite Hlen, Hpost. reflexivity.
Qed.

Lemma iterate_observes (dbg done : bool) (name : string) (it : Iteration)
    (rest : list Iteration) (st : LoopState) :
  observes_cancellation done it ->
  exists st', iterate dbg done name (it :: rest) st = (Exited, st')
              /\ scheduled st' = scheduled st /\ cache st' = cache st.
Proof.
  intros [Htop | (datagram & Hread & Hlen & Hpost)].
  - eexists. split; [apply iterate_exit_top, Htop |].
    split; [apply log_if_scheduled | apply log_if_cache].
  - destruct (done || cancel_seen_top it) eqn:Htop.
    + eexists. split; [apply iterate_exit_top, Htop |].
      split; [apply log_if_scheduled | apply log_if_cache].
    + eexists. split; [eapply iterate_exit_after_read; eassumption |].
      split; [apply log_if_scheduled | apply log_if_cache].
Qed.

(** A loop that has exited stays exited; one still reading goes on with
    the iterations that follow. *)
Lemma iterate_app (dbg done : bool) (name : string)
    (pre post : list Iteration) (st : LoopState) :
  iterate dbg done name (pre ++ post) st
  = match iterate dbg done name pre st with
    | (Exited, st') => (Exited, st')
    | (Reading, st') => iterate dbg done name post st'
    end.
Proof.
  revert st. induction pre as [| it pre IH]; intros st; simpl.
  - reflexivity.
  - destruct (done || cancel_seen_top it); [reflexivity |].
    destruct (read it) as [| | | datagram]; try reflexivity; try apply IH.
    destruct (length (take (Z.to_nat maxPacketLen) datagram) =? 0)%nat;
      [apply IH |].
    destruct (done || cancel_seen_after_read it); [reflexivity |].
    destruct (Dedup.isDuplicate (cache st) name
                (take (Z.to_nat maxPacketLen) datagram) (clock it))
      as [[|] c]; apply IH.
Qed.

(** Every reflection the loop schedules comes from an iteration both of
    whose polls found the context live. *)
Lemma iterate_schedules_live (dbg done : bool) (name : string)
    (its : list Iteration) (st : LoopState) :
  exists new,
    scheduled (snd (iterate dbg done name its st)) = scheduled st ++ new
    /\ Forall (fun task => exists it, it ∈ its
                                      /\ scheduled_by done name it task) new.
Proof.
  revert st. induction its as [| it its IH]; intros st.
  - exists []. simpl. rewrite app_nil_r. split; [reflexivity | constructor].
  - assert (Hlater : forall st1,
              scheduled st1 = scheduled st ->
              exists new,
                scheduled (snd (iterate dbg done name its st1))
                = scheduled st ++ new
                /\ Forall (fun task =>
                             exists it', it' ∈ it :: its
                                         /\ scheduled_by done name it' task)
                          new).
    { intros st1 E. destruct (IH st1) as (new & Hs & Hall).
      exists new. rewrite Hs, E. split; [reflexivity |].
      eapply Forall_impl; [exact Hall |].
      intros task (it' & Hin & Hby). exists it'. split; [right |]; assumption. }
    simpl. destruct (done || cancel_seen_top it) eqn:Htop.
    { exists []. simpl. rewrite log_if_scheduled, app_nil_r.
      split; [reflexivity | constructor]. }
    destruct (read it) as [| | | datagram] eqn:Hread.
    + apply Hlater. reflexivity.
    + exists []. simpl. rewrite app_nil_r. split; [reflexivity | constructor].
    + exists []. simpl. rewrite app_nil_r. split; [reflexivity | constructor].
    + destruct (length (take (Z.to_nat maxPacketLen) datagram) =? 0)%nat.
      { apply Hlater. reflexivity. }
      destruct (done || cancel_seen_after_read it) eqn:Hpost.
      { exists []. simpl. rewrite log_if_scheduled, app_nil_r.
        split; [reflexivity | constructor]. }
      destruct (Dedup.isDuplicate (cache st) name
                  (take (Z.to_nat maxPacketLen) datagram) (clock it))
        as [[|] c].
      * apply Hlater. rewrite log_if_scheduled. reflexivity.
      * destruct (IH (mkLoopState
                        (cache (log_if dbg (LogReceived
                                  (length (take (Z.to_nat maxPacketLen) datagram))
                                  name)
                                  (mkLoopState c (scheduled st) (logged st))))
                        (scheduled (log_if dbg (LogReceived
                                  (length (take (Z.to_nat maxPacketLen) datagram))
                                  name)
                                  (mkLoopState c (scheduled st) (logged st)))
                         ++ [(name, take (Z.to_nat maxPacketLen) datagram)])
                        (logged (log_if dbg (LogReceived
                                  (length (take (Z.to_nat maxPacketLen) datagram))
                                  name)
                                  (mkLoopState c (scheduled st) (logged st))))))
          as (new & Hs & Hall).
        exists ((name, take (Z.to_nat maxPacketLen) datagram) :: new).
        rewrite Hs. simpl. rewrite log_if_scheduled. simpl.
        rewrite <- app_assoc. split; [reflexivity |].
        constructor.
        -- exists it. split; [left |].
           split; [exact Htop |]. split; [exact Hpost |].
           exists datagram. split; [exact Hread | reflexivity].
        -- eapply Forall_impl; [exact Hall |].
           intros task (it' & Hin & Hby). exists it'.
           split; [right |]; assumption.
Qed.

End LoopFacts.

Section DataPathClaims.

(** C1, as stated, fails: between the [cancel()] of [Stop] and the
    closing of the sockets, the three interfaces are still joined and
    their sockets open, yet [reflect] for a packet received on eth0
    writes nothing, whatever the writes would return. *)
Lemma reflect_after_cancel_writes_nothing :
  NewReflector host ["eth0"; "eth1"; "wlan0"]%string false
  = (inr (built [eth0; eth1; wlan0]), host)
  /\ fst (Start host (built [eth0; eth1; wlan0])) = (None, running)
  /\ conns (Stop_cancel running) !! "eth1"%string = Some 4%nat
  /\ open (snd (Start host (built [eth0; eth1; wlan0]))) !! 4%nat
     = Some "eth1"%string
  /\ forall env, reflect env (Stop_cancel running) "eth0" query = [].
Proof.
  repeat split; vm_compute; reflexivity.
Qed.

(** C1, amended. [reflect] never writes to the socket of the ingress
    interface, and whatever it writes is the unmodified payload, sent to
    224.0.0.251:5353 on a joined socket. When the cancellation signal
    has not fired (neither on entry nor when a failed write is handled),
    it writes to every joined socket other than the ingress one, once. *)
Theorem reflect_writes_to_all_but_ingress (env : FanoutEnv)
    (r : Reflector) (srcIface : string) (packet : list byte)
    (order : list (string * nat)) :
  order ≡ₚ map_to_list (conns r) ->
  (forall w, w ∈ writes (reflect_in order env r srcIface packet) ->
     exists ifaceName conn,
       conns r !! ifaceName = Some conn /\ ifaceName <> srcIface
       /\ w = (ifaceName, conn, packet, mkAddr [224; 0; 0; 251] 5353))
  /\ (cancelled r = false ->
      (forall ifaceName, cancel_seen_on_error env ifaceName = false) ->
      (forall ifaceName conn,
         conns r !! ifaceName = Some conn -> ifaceName <> srcIface ->
         (ifaceName, conn, packet, mkAddr [224; 0; 0; 251] 5353)
           ∈ writes (reflect_in order env r srcIface packet))
      /\ NoDup (writes (reflect_in order env r srcIface packet))).
Proof.
  intros Hperm. split.
  - intros w Hw. unfold reflect_in in Hw.
    destruct (cancelled r); [inversion Hw |].
    apply fanout_writes_sound in Hw as ([name c] & Hin & Hne & ->).
    exists name, c. rewrite Hperm in Hin.
    apply elem_of_map_to_list in Hin. repeat split; assumption.
  - intros Hlive Hnone. unfold reflect_in. rewrite Hlive.
    rewrite fanout_writes_all by exact Hnone. split.
    + intros name c Hc Hne.
      change (write_to packet (name, c)
                ∈ map (write_to packet) (destinations srcIface order)).
      apply list_elem_of_fmap_2. unfold destinations.
      apply list_elem_of_filter. split; [exact Hne |].
      rewrite Hperm. apply elem_of_map_to_list. exact Hc.
    + apply NoDup_fmap_2.
      * intros [n1 c1] [n2 c2] E. unfold write_to in E. simpl in E.
        congruence.
      * unfold destinations. apply NoDup_filter.
        rewrite Hperm. apply NoDup_map_to_list.
Qed.

(** C1, amended, on the running reflector: a query from eth0 is written
    to the sockets of eth1 and wlan0. *)
Lemma reflect_writes_to_all_but_ingress_witness :
  ("eth1"%string, 4%nat, query, mkAddr [224; 0; 0; 251] 5353)
    ∈ writes (reflect calm running "eth0" query)
  /\ ("wlan0"%string, 5%nat, query, mkAddr [224; 0; 0; 251] 5353)
       ∈ writes (reflect calm running "eth0" query).
Proof.
  destruct (reflect_writes_to_all_but_ingress calm running "eth0" query
              (map_to_list (conns running)) (reflexivity _))
    as [_ Hall].
  destruct (Hall eq_refl (fun _ => eq_refl)) as [Hevery _].
  split; apply Hevery; solve [vm_compute; reflexivity | discriminate].
Defined.

(** C6. Without cancellation, whatever writes fail, [reflect] still
    attempts the write to every destination, and logs each failure.
    A destination is left out only when the signal had fired on entry or
    when an earlier write failed and cancellation was seen as that error
    was handled; that failed write is not logged. *)
Theorem reflect_write_error_does_not_abort (env : FanoutEnv)
    (r : Reflector) (srcIface : string) (packet : list byte)
    (order : list (string * nat)) :
  (cancelled r = false ->
   (forall ifaceName, cancel_seen_on_error env ifaceName = false) ->
   writes (reflect_in order env r srcIface packet)
   = map (write_to packet) (destinations srcIface order)
   /\ forall ifaceName conn,
        (ifaceName, conn) ∈ order -> ifaceName <> srcIface ->
        write_fails env ifaceName = true ->
        EvLog (LogReflectError ifaceName)
          ∈ reflect_in order env r srcIface packet)
  /\ (forall ifaceName conn,
        (ifaceName, conn) ∈ order -> ifaceName <> srcIface ->
        write_to packet (ifaceName, conn)
          ∉ writes (reflect_in order env r srcIface packet) ->
        cancelled r = true
        \/ exists name c,
             (name, c) ∈ order /\ name <> srcIface
             /\ write_fails env name = true
             /\ cancel_seen_on_error env name = true
             /\ write_to packet (name, c)
                  ∈ writes (reflect_in order env r srcIface packet)
             /\ EvLog (LogReflectError name)
                  ∉ reflect_in order env r srcIface packet).
Proof.
  unfold reflect_in. split.
  - intros Hlive Hnone. rewrite Hlive. split.
    + apply fanout_writes_all, Hnone.
    + intros name c Hin Hne Hfail.
      eapply fanout_logs_failure; eassumption.
  - intros name c Hin Hne Hnot.
    destruct (cancelled r); [left; reflexivity | right].
    destruct (fanout_skipped env (debug r) srcIface packet order name c
                Hin Hne Hnot) as (n' & c' & H1 & H2 & H3 & H4 & H5).
    exists n', c'. repeat split; try assumption.
    apply fanout_silent_abort, H4.
Qed.

(** C6 on the running reflector: a query from wlan0 whose write to eth1
    fails is still written to eth0, and the failure is logged. *)
Lemma reflect_write_error_does_not_abort_witness :
  writes (reflect eth1_write_fails running "wlan0" query)
  = map (write_to query)
        (destinations "wlan0" (map_to_list (conns running)))
  /\ EvLog (LogReflectError "eth1") ∈
       reflect eth1_write_fails running "wlan0" query.
Proof.
  destruct (reflect_write_error_does_not_abort eth1_write_fails running
              "wlan0" query (map_to_list (conns running))) as [Hall _].
  destruct (Hall eq_refl (fun _ => eq_refl)) as [Hwrites Hlog].
  split; [exact Hwrites |].
  apply (Hlog "eth1"%string 4%nat).
  - apply elem_of_map_to_list. vm_compute. reflexivity.
  - discriminate.
  - reflexivity.
Defined.

(** C5. A receive loop that finds the context cancelled at the top of
    the loop exits without scheduling anything; one that finds it
    cancelled right after a read returned a packet exits too, and the
    packet is dropped: nothing is scheduled and the dedup cache is not
    touched. From the first iteration that observes cancellation on,
    nothing is scheduled, and every reflection the loop ever scheduled
    comes from an iteration both of whose polls found the context live.
    A [reflect] that finds the context cancelled on entry writes
    nothing. *)
Theorem no_reflection_after_cancellation (r : Reflector)
    (iface : Interface) (st : LoopState) :
  (forall it rest,
     cancelled r || cancel_seen_top it = true ->
     exists st',
       receiveLoop r iface (it :: rest) st = (Exited, st')
       /\ scheduled st' = scheduled st /\ cache st' = cache st)
  /\ (forall it rest datagram,
        read it = ReadData datagram ->
        take (Z.to_nat maxPacketLen) datagram <> [] ->
        cancelled r || cancel_seen_after_read it = true ->
        exists st',
          receiveLoop r iface (it :: rest) st = (Exited, st')
          /\ scheduled st' = scheduled st /\ cache st' = cache st)
  /\ (forall before it after,
        observes_cancellation (cancelled r) it ->
        fst (receiveLoop r iface (before ++ it :: after) st) = Exited
        /\ scheduled (snd (receiveLoop r iface (before ++ it :: after) st))
           = scheduled (snd (receiveLoop r iface before st))
        /\ cache (snd (receiveLoop r iface (before ++ it :: after) st))
           = cache (snd (receiveLoop r iface before st)))
  /\ (forall its,
        exists new,
          scheduled (snd (receiveLoop r iface its st)) = scheduled st ++ new
          /\ Forall (fun task =>
                       exists it,
                         it ∈ its
                         /\ scheduled_by (cancelled r) (Name iface) it task)
                    new)
  /\ (forall order env srcIface packet,
        cancelled r = true ->
        reflect_in order env r srcIface packet = []).
Proof.
  unfold receiveLoop.
  destruct (conns r !! Name iface) as [conn |];
    (split; [| split; [| split; [| split]]]).
  - intros it rest Htop. apply iterate_observes. left. exact Htop.
  - intros it rest datagram Hread Hlen Hpost. apply iterate_observes.
    right. exists datagram. repeat split; assumption.
  - intros before it after Hobs. rewrite iterate_app.
    destruct (iterate (debug r) (cancelled r) (Name iface) before st)
      as [[|] st1].
    + simpl. repeat split.
    + destruct (iterate_observes (debug r) (cancelled r) (Name iface)
                  it after st1 Hobs) as (st' & E & Hs & Hc).
      rewrite E. simpl. repeat split; assumption.
  - intros its. apply iterate_schedules_live.
  - intros order env srcIface packet Hc. unfold reflect_in.
    rewrite Hc. reflexivity.
  - intros it rest _. exists st. repeat split.
  - intros it rest datagram _ _ _. exists st. repeat split.
  - intros before it after _. repeat split.
  - intros its. exists []. simpl. rewrite app_nil_r.
    split; [reflexivity | constructor].
  - intros order env srcIface packet Hc. unfold reflect_in.
    rewrite Hc. reflexivity.
Qed.

(** C5 on a run of the loop of eth0: a first packet is scheduled, a second
    is read while [Stop] cancels, and the loop exits with the first
    packet alone scheduled. *)
Lemma no_reflection_after_cancellation_witness :
  fst (receiveLoop running eth0
         [mkIteration false (ReadData query) false 0;
          mkIteration false (ReadData query) true 2000000000;
          mkIteration false (ReadData query) false 4000000000]
         (mkLoopState newDedupCache [] []))
  = Exited
  /\ scheduled
       (snd (receiveLoop running eth0
               [mkIteration false (ReadData query) false 0;
                mkIteration false (ReadData query) true 2000000000;
                mkIteration false (ReadData query) false 4000000000]
               (mkLoopState newDedupCache [] [])))
     = [("eth0"%string, query)].
Proof.
  destruct (no_reflection_after_cancellation running eth0
              (mkLoopState newDedupCache [] []))
    as (_ & _ & Hfrom & _ & _).
  destruct (Hfrom [mkIteration false (ReadData query) false 0]
                  (mkIteration false (ReadData query) true 2000000000)
                  [mkIteration false (ReadData query) false 4000000000])
    as (Hexit & Hsched & _).
  - right. exists query. split; [reflexivity |].
    split; [vm_compute; discriminate | reflexivity].
  - split; [exact Hexit |].
    etransitivity; [exact Hsched |]. vm_compute. reflexivity.
Defined.

End DataPathClaims.

(** ** Startup and shutdown *)

Section LifecycleFacts.

(** The sockets a run of closes leaves open. *)
Lemma close_all_lookup (l : list (string * nat)) (k : Kernel) (fd : nat) :
  open (fold_left (fun k' nc => Close k' (snd nc)) l k) !! fd
  = if bool_decide (fd ∈ l.*2) then None else open k !! fd.
Proof.
  revert k. induction l as [| [name c] l IH]; intros k.
  - reflexivity.
  - cbn [fold_left]. rewrite IH, fmap_cons. cbn [snd Close open].
    destruct (decide (fd ∈ l.*2)) as [Hin | Hnin].
    + rewrite !bool_decide_eq_true_2; [reflexivity | right; exact Hin | exact Hin].
    + rewrite (bool_decide_eq_false_2 _ Hnin).
      destruct (decide (fd = c)) as [-> | Hne].
      * rewrite bool_decide_eq_true_2 by left. apply lookup_delete_eq.
      * rewrite bool_decide_eq_false_2.
        -- apply lookup_delete_ne. congruence.
        -- intros H. apply elem_of_cons in H as [E | H]; contradiction.
Qed.

(** [Stop] closes every connection of [r.conns] and no other socket. *)
Lemma Stop_closes (k : Kernel) (r : Reflector) (name : string) (fd : nat) :
  conns r !! name = Some fd -> open (snd (Stop k r)) !! fd = None.
Proof.
  intros H. unfold Stop, Stop_close. simpl. rewrite close_all_lookup.
  rewrite bool_decide_eq_true_2; [reflexivity |].
  apply list_elem_of_fmap. exists (name, fd). split; [reflexivity |].
  apply elem_of_map_to_list. exact H.
Qed.

Lemma Stop_keeps (k : Kernel) (r : Reflector) (fd : nat) :
  (forall name, conns r !! name <> Some fd) ->
  open (snd (Stop k r)) !! fd = open k !! fd.
Proof.
  intros H. unfold Stop, Stop_close. simpl. rewrite close_all_lookup.
  rewrite bool_decide_eq_false_2; [reflexivity |].
  intros Hin. apply list_elem_of_fmap in Hin as ([name c] & -> & Hin).
  apply elem_of_map_to_list in Hin. exact (H name Hin).
Qed.

Lemma Stop_reflector (k : Kernel) (r : Reflector) :
  conns (fst (Stop k r)) = ∅ /\ cancelled (fst (Stop k r)) = true
  /\ sweeper (fst (Stop k r)) = sweeper r
  /\ loops (fst (Stop k r)) = loops r.
Proof. repeat split. Qed.

Lemma attempt_open_lt (base : gmap nat string) (k : Kernel)
    (r : Reflector) (fd : nat) :
  attempt base k r -> is_Some (open k !! fd) -> (fd < next_fd k)%nat.
Proof.
  intros H Hopen.
  destruct (decide (fd ∈ (map_to_list (conns r)).*2)) as [Hin | Hnin].
  - apply list_elem_of_fmap in Hin as ([name c] & -> & Hin).
    apply elem_of_map_to_list in Hin. eapply attempt_conn_lt; eassumption.
  - apply (attempt_base_lt base k r H).
    rewrite <- (attempt_old base k r H); [exact Hopen |].
    intros name Hn. apply Hnin. apply list_elem_of_fmap.
    exists (name, fd). split; [reflexivity |].
    apply elem_of_map_to_list. exact Hn.
Qed.

(** A failed join leaves the open sockets as they were. *)
Lemma joinMulticast_failure (base : gmap nat string) (k k1 : Kernel)
    (r : Reflector) (iface : Interface) (err : error) :
  attempt base k r ->
  joinMulticast k iface = (inl err, k1) ->
  open k1 = open k.
Proof.
  intros Hat. unfold joinMulticast, ListenMulticastUDP, SetReadBuffer.
  destruct (hd true (listens k)); simpl.
  - destruct (hd true (setbufs k)); [discriminate |].
    intros E. injection E as _ <-. simpl.
    rewrite delete_insert_eq. apply delete_id.
    destruct (open k !! next_fd k) eqn:Hopen; [| reflexivity].
    assert (next_fd k < next_fd k)%nat
      by (eapply attempt_open_lt; eauto). lia.
  - intros E. injection E as _ <-. reflexivity.
Qed.

(** A successful join hands out the next descriptor and opens it. *)
Lemma joinMulticast_success (k k1 : Kernel) (iface : Interface)
    (conn : nat) :
  joinMulticast k iface = (inr conn, k1) ->
  conn = next_fd k /\ next_fd k1 = S (next_fd k)
  /\ open k1 = <[next_fd k := Name iface]> (open k).
Proof.
  unfold joinMulticast, ListenMulticastUDP, SetReadBuffer.
  destruct (hd true (listens k)); simpl; [| discriminate].
  destruct (hd true (setbufs k)); [| discriminate].
  intros E. injection E as <- <-. repeat split.
Qed.

Lemma attempt_joined (base : gmap nat string) (k k1 : Kernel)
    (r : Reflector) (iface : Interface) (conn : nat) :
  attempt base k r ->
  conns r !! Name iface = None ->
  joinMulticast k iface = (inr conn, k1) ->
  attempt base k1
    (mkReflector (interfaces r) (<[Name iface := conn]> (conns r))
                 (dedup r) (debug r) (cancelled r) (sweeper r) (loops r)).
Proof.
  intros Hat Hfresh Hjoin.
  apply joinMulticast_success in Hjoin as (-> & Hnext & Hopen).
  constructor; simpl.
  - intros name fd Hl. apply lookup_insert_Some in Hl as [[_ <-] | [_ Hl]].
    + destruct (base !! next_fd k) eqn:Hb; [| reflexivity].
      assert (next_fd k < next_fd k)%nat
        by (eapply attempt_base_lt; eauto). lia.
    + eapply attempt_new; eassumption.
  - intros fd Hnot. rewrite Hopen.
    assert (Hne : fd <> next_fd k).
    { intros ->. apply (Hnot (Name iface)). apply lookup_insert_eq. }
    rewrite lookup_insert_ne by congruence.
    apply (attempt_old base k r Hat). intros name Hn.
    apply (Hnot name). rewrite lookup_insert_ne; [exact Hn |].
    intros <-. congruence.
  - intros fd Hb. rewrite Hnext.
    pose proof (attempt_base_lt base k r Hat fd Hb). lia.
  - intros name fd Hl. rewrite Hnext.
    apply lookup_insert_Some in Hl as [[_ <-] | [_ Hl]]; [lia |].
    pose proof (attempt_conn_lt base k r Hat name fd Hl). lia.
Qed.

(** With pairwise distinct interface names, a join loop that fails
    leaves open exactly the sockets that were open before the attempt. *)
Lemma join_all_failure (base : gmap nat string) (todo : list Interface)
    (k : Kernel) (r : Reflector) (e : error) (r' : Reflector)
    (k' : Kernel) :
  attempt base k r ->
  NoDup (map Name todo) ->
  (forall i, i ∈ todo -> conns r !! Name i = None) ->
  join_all k r todo = ((Some e, r'), k') ->
  open k' = base /\ conns r' = ∅ /\ cancelled r' = true
  /\ sweeper r' = sweeper r /\ loops r' = loops r.
Proof.
  revert k r. induction todo as [| iface rest IH]; intros k r Hat Hnd Hfresh.
  - simpl. discriminate.
  - cbn [join_all].
    destruct (joinMulticast k iface) as [[err | conn] k1] eqn:Hjoin.
    + pose proof (Stop_reflector k1 r) as Hr.
      pose proof (Stop_closes k1 r) as Hclosed.
      pose proof (Stop_keeps k1 r) as Hkept.
      destruct (Stop k1 r) as [r1 k2]. cbn [fst snd] in Hr, Hclosed, Hkept.
      intros E. injection E as _ <- <-. split; [| exact Hr].
      apply map_eq. intros fd.
      destruct (decide (fd ∈ (map_to_list (conns r)).*2)) as [Hin | Hnin].
      * apply list_elem_of_fmap in Hin as ([name c] & -> & Hin).
        apply elem_of_map_to_list in Hin. simpl.
        rewrite (Hclosed name c Hin). symmetry.
        eapply attempt_new; eassumption.
      * assert (Hnot : forall name, conns r !! name <> Some fd).
        { intros name Hn. apply Hnin. apply list_elem_of_fmap.
          exists (name, fd). split; [reflexivity |].
          apply elem_of_map_to_list. exact Hn. }
        rewrite (Hkept fd Hnot).
        rewrite (joinMulticast_failure base k k1 r iface err Hat Hjoin).
        apply (attempt_old base k r Hat fd Hnot).
    + simpl in Hnd. apply NoDup_cons in Hnd as [Hhead Hnd].
      intros E. apply IH in E; [exact E | | exact Hnd |].
      * eapply attempt_joined; [exact Hat | | exact Hjoin].
        apply Hfresh. left.
      * intros i Hi. simpl. rewrite lookup_insert_ne.
        -- apply Hfresh. right. exact Hi.
        -- intros En. apply Hhead. rewrite En.
           apply list_elem_of_fmap. exists i. split; [reflexivity | exact Hi].
Qed.

(** A [Start] that fails on a reflector with pairwise distinct interface
    names and no connection yet releases every socket it had joined. *)
Lemma Start_failure_distinct_names (k : Kernel) (r : Reflector)
    (e : error) (r' : Reflector) (k' : Kernel) :
  (forall fd, is_Some (open k !! fd) -> (fd < next_fd k)%nat) ->
  conns r = ∅ ->
  NoDup (map Name (interfaces r)) ->
  Start k r = ((Some e, r'), k') ->
  open k' = open k /\ conns r' = ∅ /\ cancelled r' = true
  /\ sweeper r' = sweeper r /\ loops r' = loops r.
Proof.
  intros Hwf Hempty Hnd. unfold Start.
  destruct (join_all k r (interfaces r)) as [[[e1 |] r1] k1] eqn:Hjoin;
    [| discriminate].
  intros E. injection E as <- <- <-.
  apply (join_all_failure (open k) (interfaces r) k r e1 r1 k1);
    try assumption.
  - constructor.
    + intros name fd H. rewrite Hempty, lookup_empty in H. discriminate.
    + reflexivity.
    + exact Hwf.
    + intros name fd H. rewrite Hempty, lookup_empty in H. discriminate.
  - intros i _. rewrite Hempty. apply lookup_empty.
Qed.

End LifecycleFacts.

Section LifecycleClaims.

(** C9. The code departs from the claim: a list that names the same
    usable interface twice holds two entries and is accepted. Started,
    that reflector has joined two sockets on eth0, keeps only the second
    in [r.conns], and reflects a packet from eth0 nowhere. *)
Theorem NewReflector_accepts_repeated_name :
  NewReflector host ["eth0"; "eth0"]%string false
  = (inr (built [eth0; eth0]), host)
  /\ fst (fst (Start host (built [eth0; eth0]))) = None
  /\ map_to_list (conns (snd (fst (Start host (built [eth0; eth0])))))
     = [("eth0"%string, 4%nat)]
  /\ open (snd (Start host (built [eth0; eth0])))
     = <[3%nat := "eth0"%string]> (<[4%nat := "eth0"%string]> ∅)
  /\ forall env,
       reflect env (snd (fst (Start host (built [eth0; eth0]))))
         "eth0" query = [].
Proof.
  repeat split; vm_compute; reflexivity.
Qed.

(** C4. The code departs from the claim when an interface name is
    repeated: eth0 is joined twice, the second connection replaces the
    first in [r.conns], and when the join of eth1 then fails [Stop]
    closes only the second. [Start] returns the error with socket 3,
    joined during that attempt, still open. *)
Theorem Start_failure_leaks_replaced_socket :
  NewReflector host_third_join_fails ["eth0"; "eth0"; "eth1"]%string false
  = (inr (built [eth0; eth0; eth1]), host_third_join_fails)
  /\ open host_third_join_fails = ∅
  /\ fst (fst (Start host_third_join_fails (built [eth0; eth0; eth1])))
     = Some (ErrJoin "eth1" ErrListen)
  /\ conns (snd (fst (Start host_third_join_fails
                        (built [eth0; eth0; eth1])))) = ∅
  /\ open (snd (Start host_third_join_fails (built [eth0; eth0; eth1])))
     = <[3%nat := "eth0"%string]> ∅.
Proof.
  repeat split; vm_compute; reflexivity.
Qed.

End LifecycleClaims.

(** ** More on the dedup cache *)

Section DedupRuns.

(** What a sweep leaves under a key, whatever the visiting order. *)
Lemma cleanup_in_lookup (c : dedupCache) (now : Z) (order : list (Z * Z))
    (key : Z) :
  order ≡ₚ map_to_list (entries c) ->
  entries (cleanup_in order c now) !! key
  = match entries c !! key with
    | Some expireAt => if now >? expireAt then None else Some expireAt
    | None => None
    end.
Proof.
  intros Hperm. unfold cleanup_in. simpl.
  destruct (entries c !! key) as [e |] eqn:Hk.
  - destruct (now >? e) eqn:Hgt.
    + apply cleanup_fold_expired with (expireAt := e).
      * rewrite Hperm. apply elem_of_map_to_list. exact Hk.
      * apply Z.gtb_lt in Hgt. lia.
    + rewrite cleanup_fold_live; [exact Hk |].
      intros e' He'. rewrite Hperm in He'.
      apply elem_of_map_to_list in He'.
      assert (e' = e) by congruence. subst e'.
      destruct (Z.gtb_spec now e); [discriminate | lia].
  - apply cleanup_fold_None. exact Hk.
Qed.

Lemma cleanup_lookup (c : dedupCache) (now : Z) (key : Z) :
  entries (cleanup c now) !! key
  = match entries c !! key with
    | Some expireAt => if now >? expireAt then None else Some expireAt
    | None => None
    end.
Proof. apply cleanup_in_lookup. reflexivity. Qed.

Lemma cache_eq (c1 c2 : dedupCache) :
  (forall key, entries c1 !! key = entries c2 !! key) -> c1 = c2.
Proof.
  destruct c1 as [m1], c2 as [m2]. simpl. intros H.
  f_equal. apply map_eq. exact H.
Qed.

Lemma dedupWindow_pos : 0 < dedupWindow.
Proof. unfold dedupWindow, second. lia. Qed.

(** The two ways a call can go. *)
Lemma isDuplicate_cases (c : dedupCache) (I : string) (P : list byte)
    (t : Z) :
  (isDuplicate c I P t = (true, c)
   /\ exists e, entries c !! fingerprint I P = Some e /\ t < e)
  \/ (isDuplicate c I P t
      = (false, mkCache (<[fingerprint I P := t + dedupWindow]> (entries c)))
      /\ forall e, entries c !! fingerprint I P = Some e -> e <= t).
Proof.
  unfold isDuplicate.
  destruct (entries c !! fingerprint I P) as [e |].
  - destruct (Z.ltb_spec t e) as [Hlt | Hge].
    + left. split; [reflexivity |]. exists e. split; [reflexivity | exact Hlt].
    + right. split; [reflexivity |]. intros e' E. injection E as <-. exact Hge.
  - right. split; [reflexivity |]. intros e' E. discriminate.
Qed.

(** One step of [replay] on a call. *)
Lemma replay_call (c : dedupCache) (I : string) (P : list byte) (t : Z)
    (rest : list CacheOp) :
  replay c (OpCall I P t :: rest)
  = (if fst (isDuplicate c I P t)
     then fst (replay (snd (isDuplicate c I P t)) rest)
     else (I, P, t) :: fst (replay (snd (isDuplicate c I P t)) rest),
     snd (replay (snd (isDuplicate c I P t)) rest)).
Proof.
  simpl. destruct (isDuplicate c I P t) as [dup c1]. simpl.
  destruct (replay c1 rest) as [passed c2]. reflexivity.
Qed.

(** Nothing is passed on before the first reading of the clock. *)
Lemma replay_times_ge (T : Z) (ops : list CacheOp) (c : dedupCache) :
  Forall (fun o => T <= op_time o) ops ->
  Forall (fun a => T <= snd a) (fst (replay c ops)).
Proof.
  revert c. induction ops as [| [I P t | t] rest IH]; intros c Hall.
  - constructor.
  - apply Forall_cons in Hall as [Ht Hall]. rewrite replay_call. simpl.
    destruct (fst (isDuplicate c I P t)).
    + apply IH, Hall.
    + constructor; [exact Ht | apply IH, Hall].
  - apply Forall_cons in Hall as [_ Hall]. simpl. apply IH, Hall.
Qed.

(** While a fingerprint is recorded, nothing with that fingerprint is
    passed on before the recorded expiry. *)
Lemma replay_after_entry (ops : list CacheOp) (c : dedupCache)
    (key expireAt : Z) :
  entries c !! key = Some expireAt ->
  clock_monotone (map op_time ops) ->
  Forall (fun a => fingerprint (fst (fst a)) (snd (fst a)) = key ->
                   expireAt <= snd a)
         (fst (replay c ops)).
Proof.
  revert c expireAt.
  induction ops as [| [I P t | t] rest IH]; intros c e Hk Hmono.
  - constructor.
  - destruct Hmono as [_ Hmono]. rewrite replay_call. simpl.
    destruct (isDuplicate_cases c I P t) as [[E _] | [E Hold]]; rewrite E; simpl.
    + apply IH; assumption.
    + pose proof dedupWindow_pos as HW.
      destruct (decide (fingerprint I P = key)) as [Hsame | Hother].
      * assert (He : e <= t) by (apply Hold; rewrite Hsame; exact Hk).
        constructor; [intros _; exact He |].
        eapply Forall_impl.
        -- apply (IH _ (t + dedupWindow)); [| exact Hmono].
           simpl. rewrite Hsame. apply lookup_insert_eq.
        -- simpl. intros a Ha Hfp. specialize (Ha Hfp). lia.
      * constructor; [intros Hfp; contradiction |].
        apply IH; [| exact Hmono].
        simpl. rewrite lookup_insert_ne by exact Hother. exact Hk.
  - destruct Hmono as [Hlater Hmono]. simpl in Hlater |- *.
    destruct (Z.gtb_spec t e) as [Hgt | Hle].
    + eapply Forall_impl.
      * apply (replay_times_ge t).
        apply Forall_forall. intros o Ho.
        rewrite Forall_forall in Hlater. apply Hlater.
        apply list_elem_of_fmap. exists o. split; [reflexivity | exact Ho].
      * simpl. intros a Ha _. lia.
    + apply IH; [| exact Hmono].
      rewrite cleanup_lookup, Hk.
      destruct (Z.gtb_spec t e); [lia | reflexivity].
Qed.

(** Each packet passed on is spaced from all those passed on after it. *)
Lemma replay_spaced (ops : list CacheOp) (c : dedupCache) :
  clock_monotone (map op_time ops) ->
  forall before a after,
    fst (replay c ops) = before ++ a :: after -> Forall (spaced a) after.
Proof.
  revert c. induction ops as [| [I P t | t] rest IH]; intros c Hmono.
  - intros before a after E. destruct before; discriminate.
  - pose proof Hmono as [_ Hrest]. rewrite replay_call. simpl.
    destruct (isDuplicate_cases c I P t) as [[E _] | [E _]]; rewrite E; simpl.
    + apply IH, Hrest.
    + intros [| b before] a after Ecat; simpl in Ecat.
      * injection Ecat as <- <-.
        eapply Forall_impl.
        -- apply (replay_after_entry rest _ (fingerprint I P)
                    (t + dedupWindow)); [| exact Hrest].
           simpl. apply lookup_insert_eq.
        -- intros a Ha. unfold spaced. simpl. intros Hfp.
           apply Ha. symmetry. exact Hfp.
      * injection Ecat as _ Ecat. eapply IH; eassumption.
  - destruct Hmono as [_ Hrest]. simpl. apply IH, Hrest.
Qed.

Lemma replay_times_le (T : Z) (ops : list CacheOp) (c : dedupCache) :
  Forall (fun o => op_time o <= T) ops ->
  Forall (fun a => snd a <= T) (fst (replay c ops)).
Proof.
  revert c. induction ops as [| [I P t | t] rest IH]; intros c Hall.
  - constructor.
  - apply Forall_cons in Hall as [Ht Hall]. rewrite replay_call. simpl.
    destruct (fst (isDuplicate c I P t)).
    + apply IH, Hall.
    + constructor; [exact Ht | apply IH, Hall].
  - apply Forall_cons in Hall as [_ Hall]. simpl. apply IH, Hall.
Qed.

(** Every entry of the cache after a run was there before it or was
    recorded for a packet passed on during it. *)
Lemma replay_entries (ops : list CacheOp) (c : dedupCache)
    (key expireAt : Z) :
  entries (snd (replay c ops)) !! key = Some expireAt ->
  entries c !! key = Some expireAt
  \/ exists a, a ∈ fst (replay c ops)
               /\ fingerprint (fst (fst a)) (snd (fst a)) = key
               /\ expireAt = snd a + dedupWindow.
Proof.
  revert c. induction ops as [| [I P t | t] rest IH]; intros c Hk.
  - left. exact Hk.
  - rewrite replay_call in Hk |- *. simpl in Hk |- *.
    destruct (IH _ Hk) as [Hc1 | (a & Hin & Hfp & He)].
    + destruct (isDuplicate_cases c I P t) as [[E _] | [E _]];
        rewrite E in Hc1 |- *; simpl in Hc1 |- *.
      * left. exact Hc1.
      * apply lookup_insert_Some in Hc1 as [[<- <-] | [_ Hc]].
        -- right. exists (I, P, t). split; [left | split; reflexivity].
        -- left. exact Hc.
    + right. exists a. split; [| split; assumption].
      destruct (fst (isDuplicate c I P t)); [exact Hin | right; exact Hin].
  - simpl in Hk |- *. destruct (IH _ Hk) as [Hc1 | Hpassed].
    + left. rewrite cleanup_lookup in Hc1.
      destruct (entries c !! key) as [e |]; [| discriminate].
      destruct (t >? e); [discriminate | exact Hc1].
    + right. exact Hpassed.
Qed.

Lemma fingerprint_uint64 (I : string) (P : list byte) :
  is_uint64 (fingerprint I P).
Proof.
  unfold fingerprint, Fnv.Sum64. apply Write_uint64, Write_uint64.
  apply New64a_uint64.
Qed.

Lemma Write_cons (h : Z) (c : byte) (data : list byte) :
  Fnv.Write h (c :: data) = Fnv.Write (Fnv.write_byte h c) data.
Proof. reflexivity. Qed.

Lemma byte_val_inj (a b : byte) : byte_val a = byte_val b -> a = b.
Proof.
  unfold byte_val. intros H. apply N2Z.inj in H.
  assert (E : Byte.of_N (Byte.to_N a) = Byte.of_N (Byte.to_N b))
    by (rewrite H; reflexivity).
  rewrite !Byte.of_to_N in E. congruence.
Qed.

End DedupRuns.

Section DedupExtras.

(** X1. Whatever calls and sweeps a cache goes through, as long as the
    clock never runs backwards, two packets it lets pass with the same
    fingerprint (in particular the same payload from the same interface)
    are at least one dedup window apart. *)
Theorem passed_packets_are_a_window_apart (c : dedupCache)
    (ops : list CacheOp) (i j : nat) (a b : string * list byte * Z) :
  clock_monotone (map op_time ops) ->
  (i < j)%nat ->
  fst (replay c ops) !! i = Some a ->
  fst (replay c ops) !! j = Some b ->
  fingerprint (fst (fst a)) (snd (fst a))
  = fingerprint (fst (fst b)) (snd (fst b)) ->
  snd a + dedupWindow <= snd b.
Proof.
  intros Hmono Hij Ha Hb Hfp.
  pose proof (replay_spaced ops c Hmono (take i (fst (replay c ops))) a
                (drop (S i) (fst (replay c ops)))) as Hsp.
  rewrite take_drop_middle in Hsp by exact Ha.
  specialize (Hsp eq_refl). rewrite Forall_lookup in Hsp.
  apply (Hsp (j - S i)%nat b); [| exact Hfp].
  rewrite lookup_drop. replace (S i + (j - S i))%nat with j by lia. exact Hb.
Qed.

(** X1 on a run on eth0: a query passes at 0s, is suppressed at 0.5s, a
    sweep runs at 1.2s and the query passes again at 1.5s. *)
Lemma passed_packets_are_a_window_apart_witness :
  fst (replay newDedupCache
         [OpCall "eth0" query 0; OpCall "eth0" query 500000000;
          OpSweep 1200000000; OpCall "eth0" query 1500000000])
  = [("eth0"%string, query, 0); ("eth0"%string, query, 1500000000)]
  /\ 0 + dedupWindow <= 1500000000.
Proof.
  split; [vm_compute; reflexivity |].
  apply (passed_packets_are_a_window_apart newDedupCache
           [OpCall "eth0" query 0; OpCall "eth0" query 500000000;
            OpSweep 1200000000; OpCall "eth0" query 1500000000]
           0%nat 1%nat ("eth0"%string, query, 0)
           ("eth0"%string, query, 1500000000)).
  - simpl. repeat constructor; lia.
  - lia.
  - vm_compute. reflexivity.
  - vm_compute. reflexivity.
  - reflexivity.
Defined.

(** X2. On a cache that started empty, [isDuplicate] answers true only
    for a fingerprint under which a packet was let pass less than one
    window before, whatever calls and sweeps came in between. *)
Theorem suppressed_only_after_a_recent_pass (ops : list CacheOp)
    (I : string) (P : list byte) (t : Z) :
  Forall (fun o => op_time o <= t) ops ->
  fst (isDuplicate (snd (replay newDedupCache ops)) I P t) = true ->
  exists a,
    a ∈ fst (replay newDedupCache ops)
    /\ fingerprint (fst (fst a)) (snd (fst a)) = fingerprint I P
    /\ snd a <= t < snd a + dedupWindow.
Proof.
  intros Hpast Hdup. rewrite isDuplicate_answer in Hdup.
  destruct (entries (snd (replay newDedupCache ops)) !! fingerprint I P)
    as [e |] eqn:Hk; [| discriminate].
  apply Z.ltb_lt in Hdup.
  destruct (replay_entries ops newDedupCache _ _ Hk)
    as [Hnew | (a & Hin & Hfp & He)].
  - simpl in Hnew. rewrite lookup_empty in Hnew. discriminate.
  - exists a. split; [exact Hin |]. split; [exact Hfp |].
    pose proof (replay_times_le t ops newDedupCache Hpast) as Hle.
    rewrite Forall_forall in Hle. specialize (Hle a Hin). lia.
Qed.

(** X2 on a run on eth0: the query suppressed at 0.5s was let pass at 0s. *)
Lemma suppressed_only_after_a_recent_pass_witness :
  exists a,
    a ∈ fst (replay newDedupCache [OpCall "eth0" query 0])
    /\ fingerprint (fst (fst a)) (snd (fst a)) = fingerprint "eth0" query
    /\ snd a <= 500000000 < snd a + dedupWindow.
Proof.
  apply (suppressed_only_after_a_recent_pass
           [OpCall "eth0" query 0] "eth0" query 500000000).
  - repeat constructor. simpl. lia.
  - vm_compute. reflexivity.
Defined.

(** X3. A sweep never changes what [isDuplicate] answers afterwards: for
    every cache, every order in which the sweep visits the entries and
    every later (or equal) time, the answer after the sweep is the answer
    without it. *)
Theorem cleanup_keeps_answers (c : dedupCache) (order : list (Z * Z))
    (swept now : Z) (I : string) (P : list byte) :
  order ≡ₚ map_to_list (entries c) ->
  swept <= now ->
  fst (isDuplicate (cleanup_in order c swept) I P now)
  = fst (isDuplicate c I P now).
Proof.
  intros Hperm Hle. rewrite !isDuplicate_answer.
  rewrite (cleanup_in_lookup c swept order _ Hperm).
  destruct (entries c !! fingerprint I P) as [e |]; [| reflexivity].
  destruct (Z.gtb_spec swept e) as [Hgt | _]; [| reflexivity].
  symmetry. apply Z.ltb_ge. lia.
Qed.

(** X3 on a cache whose only entry has expired when the sweep runs. *)
Lemma cleanup_keeps_answers_witness :
  fst (isDuplicate
         (cleanup (snd (isDuplicate newDedupCache "eth0" query 0))
                  1200000000)
         "eth0" query 1500000000)
  = fst (isDuplicate (snd (isDuplicate newDedupCache "eth0" query 0))
           "eth0" query 1500000000).
Proof.
  apply (cleanup_keeps_answers
           (snd (isDuplicate newDedupCache "eth0" query 0))
           (map_to_list
              (entries (snd (isDuplicate newDedupCache "eth0" query 0))))
           1200000000 1500000000 "eth0" query).
  - reflexivity.
  - lia.
Defined.

(** X4. Sweeps absorb one another: after the ticks of [runCleanup], taken
    at clock readings that never run backwards, the cache is what a single
    [cleanup] at the last tick would have left; without a tick it is
    untouched. *)
Theorem runCleanup_is_the_last_sweep (c : dedupCache) (ticks : list Z)
    (last : Z) :
  clock_monotone (ticks ++ [last]) ->
  runCleanup c (ticks ++ [last]) = cleanup c last
  /\ runCleanup c [] = c.
Proof.
  intros Hmono. split; [| reflexivity].
  revert c Hmono. induction ticks as [| t ticks IH]; intros c Hmono.
  - reflexivity.
  - destruct Hmono as [Hlater Hmono]. simpl.
    change (runCleanup (cleanup c t) (ticks ++ [last]) = cleanup c last).
    rewrite IH by exact Hmono.
    assert (Hle : t <= last).
    { rewrite Forall_forall in Hlater. apply Hlater.
      apply elem_of_app. right. left. }
    apply cache_eq. intros key. rewrite !cleanup_lookup.
    destruct (entries c !! key) as [e |]; [| reflexivity].
    destruct (Z.gtb_spec t e) as [Hgt | Hkeep].
    + destruct (Z.gtb_spec last e); [reflexivity | lia].
    + reflexivity.
Qed.

(** X4 on three ticks, ten seconds apart. *)
Lemma runCleanup_is_the_last_sweep_witness :
  runCleanup (snd (isDuplicate newDedupCache "eth0" query 0))
    [10000000000; 20000000000; 30000000000]
  = cleanup (snd (isDuplicate newDedupCache "eth0" query 0)) 30000000000.
Proof.
  apply (runCleanup_is_the_last_sweep
           (snd (isDuplicate newDedupCache "eth0" query 0))
           [10000000000; 20000000000] 30000000000).
  simpl. repeat constructor; lia.
Defined.

(** X5. Every key a cache that started empty ever holds is a 64-bit value
    and every expiry it holds is at most one window after the latest
    reading of the clock; so the first sweep that comes more than one
    window after the last call empties the cache. *)
Theorem idle_cache_is_emptied (ops : list CacheOp) (T : Z) :
  Forall (fun o => op_time o <= T) ops ->
  (forall key expireAt,
     entries (snd (replay newDedupCache ops)) !! key = Some expireAt ->
     is_uint64 key /\ expireAt <= T + dedupWindow)
  /\ (forall now,
        T + dedupWindow < now ->
        cleanup (snd (replay newDedupCache ops)) now = newDedupCache).
Proof.
  intros Hpast.
  assert (Hbound : forall key e,
            entries (snd (replay newDedupCache ops)) !! key = Some e ->
            is_uint64 key /\ e <= T + dedupWindow).
  { intros key e Hk.
    destruct (replay_entries ops newDedupCache key e Hk)
      as [Hnew | (a & Hin & <- & ->)].
    - simpl in Hnew. rewrite lookup_empty in Hnew. discriminate.
    - split; [apply fingerprint_uint64 |].
      pose proof (replay_times_le T ops newDedupCache Hpast) as Hle.
      rewrite Forall_forall in Hle. specialize (Hle a Hin). lia. }
  split; [exact Hbound |].
  intros now Hidle. apply cache_eq. intros key.
  rewrite cleanup_lookup. simpl. rewrite lookup_empty.
  destruct (entries (snd (replay newDedupCache ops)) !! key) as [e |] eqn:Hk;
    [| reflexivity].
  destruct (Hbound key e Hk) as [_ He].
  destruct (Z.gtb_spec now e); [reflexivity | lia].
Qed.

(** X5 on a run whose last call is at 0.5s: the sweep at 10s leaves
    nothing. *)
Lemma idle_cache_is_emptied_witness :
  cleanup (snd (replay newDedupCache
                  [OpCall "eth0" query 0; OpCall "wlan0" query 500000000]))
          10000000000
  = newDedupCache.
Proof.
  destruct (idle_cache_is_emptied
              [OpCall "eth0" query 0; OpCall "wlan0" query 500000000]
              500000000) as [_ Hempty].
  - repeat constructor; simpl; lia.
  - apply Hempty. unfold dedupWindow, second. lia.
Defined.

(** X6. On one interface, two payloads that differ in exactly one byte
    never have the same fingerprint: the dedup cache cannot take one for
    a repeat of the other. *)
Theorem fingerprint_detects_a_changed_byte (I : string)
    (before after : list byte) (a b : byte) :
  a <> b ->
  fingerprint I (before ++ a :: after) <> fingerprint I (before ++ b :: after).
Proof.
  intros Hab E. apply Hab.
  unfold fingerprint, Fnv.Sum64 in E.
  rewrite !Write_app, !Write_cons in E.
  apply Write_inj in E; try apply write_byte_uint64.
  assert (Hst : is_uint64 (Fnv.Write (Fnv.Write Fnv.New64a
                                        (list_byte_of_string I)) before))
    by (apply Write_uint64, Write_uint64, New64a_uint64).
  unfold Fnv.write_byte in E.
  apply mul_prime64_inj in E;
    try (apply lxor_uint64; [exact Hst | apply byte_val_uint64]).
  rewrite (Z.lxor_comm _ (Fnv.byte_val a)), (Z.lxor_comm _ (Fnv.byte_val b))
    in E.
  apply lxor_cancel_r in E. apply byte_val_inj, E.
Qed.

(** X6 for two queries that differ in their last byte. *)
Lemma fingerprint_detects_a_changed_byte_witness :
  (fingerprint "eth0" (list_byte_of_string "query1")
   =? fingerprint "eth0" (list_byte_of_string "query2")) = false.
Proof.
  apply Z.eqb_neq.
  apply (fingerprint_detects_a_changed_byte "eth0"
           (list_byte_of_string "query") [] "1"%byte "2"%byte).
  discriminate.
Defined.

End DedupExtras.

(** ** More on startup and shutdown *)

Section LifecycleMore.

Lemma attempt_conns (base : gmap nat string) (k : Kernel)
    (r r' : Reflector) :
  attempt base k r -> conns r' = conns r -> attempt base k r'.
Proof.
  intros [Hnew Hold Hbase Hconn] E. constructor.
  - intros name fd H. rewrite E in H. eapply Hnew, H.
  - intros fd H. apply Hold. intros name. rewrite <- E. apply H.
  - exact Hbase.
  - intros name fd H. rewrite E in H. eapply Hconn, H.
Qed.

Lemma attempt_initial (k : Kernel) (r : Reflector) :
  descriptors_fresh k -> conns r = ∅ -> attempt (open k) k r.
Proof.
  intros Hwf Hempty. constructor.
  - intros name fd H. rewrite Hempty, lookup_empty in H. discriminate.
  - reflexivity.
  - exact Hwf.
  - intros name fd H. rewrite Hempty, lookup_empty in H. discriminate.
Qed.

(** [Stop] gives back the sockets of the attempt, and only those. *)
Lemma Stop_restores (base : gmap nat string) (k : Kernel) (r : Reflector) :
  attempt base k r -> open (snd (Stop k r)) = base.
Proof.
  intros Hat. apply map_eq. intros fd.
  destruct (decide (fd ∈ (map_to_list (conns r)).*2)) as [Hin | Hnin].
  - apply list_elem_of_fmap in Hin as ([name c] & -> & Hin).
    apply elem_of_map_to_list in Hin. cbn [snd].
    rewrite (Stop_closes k r name c Hin). symmetry.
    eapply attempt_new; eassumption.
  - assert (Hnot : forall name, conns r !! name <> Some fd).
    { intros name Hn. apply Hnin. apply list_elem_of_fmap.
      exists (name, fd). split; [reflexivity |].
      apply elem_of_map_to_list. exact Hn. }
    rewrite (Stop_keeps k r fd Hnot).
    apply (attempt_old base k r Hat fd Hnot).
Qed.

Lemma owned_joined (base : gmap nat string) (k k1 : Kernel)
    (r : Reflector) (iface : Interface) (conn : nat) :
  attempt base k r -> owned k r ->
  joinMulticast k iface = (inr conn, k1) ->
  owned k1
    (mkReflector (interfaces r) (<[Name iface := conn]> (conns r))
                 (dedup r) (debug r) (cancelled r) (sweeper r) (loops r)).
Proof.
  intros Hat Hown Hjoin.
  apply joinMulticast_success in Hjoin as (-> & _ & Hopen).
  intros name fd Hl. simpl in Hl. rewrite Hopen.
  apply lookup_insert_Some in Hl as [[<- <-] | [_ Hl]].
  - apply lookup_insert_eq.
  - pose proof (attempt_conn_lt base k r Hat name fd Hl).
    rewrite lookup_insert_ne by lia. apply Hown, Hl.
Qed.

(** A join loop that gets through has one open socket per interface of
    its list, each recorded under the name of its interface, and has
    touched nothing else. *)
Lemma join_all_success (base : gmap nat string) (todo : list Interface)
    (k : Kernel) (r r' : Reflector) (k' : Kernel) :
  attempt base k r -> owned k r ->
  NoDup (map Name todo) ->
  (forall i, i ∈ todo -> conns r !! Name i = None) ->
  join_all k r todo = ((None, r'), k') ->
  attempt base k' r' /\ owned k' r'
  /\ (forall i, i ∈ todo -> is_Some (conns r' !! Name i))
  /\ size (conns r') = (size (conns r) + length todo)%nat
  /\ interfaces r' = interfaces r /\ cancelled r' = cancelled r
  /\ sweeper r' = sweeper r /\ loops r' = loops r
  /\ (forall name, name ∉ map Name todo -> conns r' !! name = conns r !! name).
Proof.
  revert k r. induction todo as [| iface rest IH];
    intros k r Hat Hown Hnd Hfresh.
  - simpl. intros E. injection E as <- <-.
    split; [exact Hat |]. split; [exact Hown |].
    split; [intros i Hi; inversion Hi |].
    split; [simpl; lia |]. repeat split.
  - cbn [join_all].
    destruct (joinMulticast k iface) as [[err | conn] k1] eqn:Hjoin.
    + destruct (Stop k1 r) as [r1 k2]. discriminate.
    + simpl in Hnd. apply NoDup_cons in Hnd as [Hhead Hnd].
      assert (Hnone : conns r !! Name iface = None)
        by (apply Hfresh; left).
      intros E. apply IH in E.
      * destruct E as (Hat' & Hown' & Hall & Hsize & Hi & Hc & Hs & Hl & Hrest).
        simpl in Hsize, Hi, Hc, Hs, Hl, Hrest.
        split; [exact Hat' |]. split; [exact Hown' |].
        split; [| split; [| repeat split; try assumption]].
        -- intros i Hin. apply elem_of_cons in Hin as [-> | Hin].
           ++ rewrite Hrest by exact Hhead.
              rewrite lookup_insert_eq. eexists. reflexivity.
           ++ apply Hall, Hin.
        -- rewrite Hsize, map_size_insert_None by exact Hnone.
           simpl. lia.
        -- intros name Hname. rewrite Hrest.
           ++ apply lookup_insert_ne. intros <-. apply Hname. left.
           ++ intros Hin. apply Hname. right. exact Hin.
      * eapply attempt_joined; eassumption.
      * eapply owned_joined; eassumption.
      * exact Hnd.
      * intros i Hi. simpl. rewrite lookup_insert_ne.
        -- apply Hfresh. right. exact Hi.
        -- intros En. apply Hhead. rewrite En.
           apply list_elem_of_fmap. exists i. split; [reflexivity | exact Hi].
Qed.

(** Once cancelled, a reflector stays cancelled through a join loop. *)
Lemma join_all_cancelled (todo : list Interface) (k : Kernel)
    (r : Reflector) :
  cancelled r = true -> cancelled (snd (fst (join_all k r todo))) = true.
Proof.
  revert k r. induction todo as [| iface rest IH]; intros k r Hc.
  - exact Hc.
  - cbn [join_all].
    destruct (joinMulticast k iface) as [[err | conn] k1].
    + destruct (Stop k1 r) as [r1 k2] eqn:E.
      pose proof (Stop_reflector k1 r) as (_ & Hc1 & _).
      rewrite E in Hc1. exact Hc1.
    + apply IH. exact Hc.
Qed.

End LifecycleMore.

Section LifecycleExtras.

(** X7. When [Start] succeeds for interfaces with pairwise distinct names,
    every interface has a socket of its own: recorded in [r.conns] under
    the interface's name, open, joined on that interface, and not open
    before. There are as many connections as interfaces, no other socket
    was touched, and the sweeper and one receive loop per interface have
    been started. *)
Theorem Start_joins_every_interface (k : Kernel) (r r' : Reflector)
    (k' : Kernel) :
  descriptors_fresh k ->
  conns r = ∅ ->
  NoDup (map Name (interfaces r)) ->
  Start k r = ((None, r'), k') ->
  (forall i, i ∈ interfaces r ->
     exists fd, conns r' !! Name i = Some fd
                /\ open k' !! fd = Some (Name i)
                /\ open k !! fd = None)
  /\ size (conns r') = length (interfaces r)
  /\ (forall fd, (forall name, conns r' !! name <> Some fd) ->
                 open k' !! fd = open k !! fd)
  /\ loops r' = map Name (interfaces r)
  /\ sweeper r' = true
  /\ cancelled r' = cancelled r.
Proof.
  intros Hwf Hempty Hnd. unfold Start.
  destruct (join_all k r (interfaces r)) as [[[e1 |] r1] k1] eqn:Hjoin;
    [discriminate |].
  intros E. injection E as <- <-.
  destruct (join_all_success (open k) (interfaces r) k r r1 k1)
    as (Hat & Hown & Hall & Hsize & Hi & Hc & _); try assumption.
  - apply attempt_initial; assumption.
  - intros name fd H. rewrite Hempty, lookup_empty in H. discriminate.
  - intros i _. rewrite Hempty. apply lookup_empty.
  - simpl. split; [| split; [| split; [| split; [| split]]]].
    + intros i Hin. destruct (Hall i Hin) as [fd Hfd].
      exists fd. split; [exact Hfd |]. split; [apply Hown, Hfd |].
      eapply attempt_new; eassumption.
    + rewrite Hsize, Hempty, map_size_empty. reflexivity.
    + apply (attempt_old (open k) k1 r1 Hat).
    + rewrite Hi. reflexivity.
    + reflexivity.
    + exact Hc.
Qed.

(** X7 on the host: started, the reflector for eth0, eth1 and wlan0 holds
    three connections. *)
Lemma Start_joins_every_interface_witness :
  size (conns running) = length [eth0; eth1; wlan0]
  /\ loops running = map Name [eth0; eth1; wlan0].
Proof.
  destruct (Start_joins_every_interface host (built [eth0; eth1; wlan0])
              running (snd (Start host (built [eth0; eth1; wlan0]))))
    as (_ & Hsize & _ & Hloops & _).
  - intros fd [name Hfd]. simpl in Hfd. rewrite lookup_empty in Hfd.
    discriminate.
  - reflexivity.
  - simpl. compute_done.
  - vm_compute. reflexivity.
  - split; [exact Hsize | exact Hloops].
Defined.

(** The error of a failed join loop names the interface whose join
    failed, with the step of [joinMulticast] that failed. *)
Lemma join_all_error (todo : list Interface) (k : Kernel) (r : Reflector)
    (e : error) (r' : Reflector) (k' : Kernel) :
  join_all k r todo = ((Some e, r'), k') ->
  exists iface cause,
    In iface todo /\ e = ErrJoin (Name iface) cause
    /\ (cause = ErrListen \/ cause = ErrSetReadBuffer).
Proof.
  revert k r. induction todo as [| iface rest IH]; intros k r.
  - simpl. discriminate.
  - cbn [join_all].
    destruct (joinMulticast k iface) as [[err | conn] k1] eqn:Hjoin.
    + destruct (Stop k1 r) as [r1 k2]. intros E. injection E as <- _ _.
      exists iface, err. split; [left; reflexivity |].
      split; [reflexivity |].
      unfold joinMulticast in Hjoin.
      destruct (ListenMulticastUDP k iface) as [[c |] k0].
      * destruct (SetReadBuffer k0 c) as [[|] k3]; [discriminate |].
        injection Hjoin as <- _. right. reflexivity.
      * injection Hjoin as <- _. left. reflexivity.
    + intros E. destruct (IH _ _ E) as (i & cause & Hin & He & Hc).
      exists i, cause. split; [right; exact Hin |]. split; assumption.
Qed.

(** X8. A [Start] that fails on a reflector with pairwise distinct
    interface names and no connection yet releases every socket it had
    joined: the open sockets are those open before the [Start], the
    reflector holds no connection and is cancelled, and no goroutine was
    started. Its error names an interface of the reflector, wrapped
    around the failure of [ListenMulticastUDP] or of [SetReadBuffer]. *)
Theorem failed_Start_releases_its_sockets (k : Kernel) (r : Reflector)
    (e : error) (r' : Reflector) (k' : Kernel) :
  (forall fd, is_Some (open k !! fd) -> (fd < next_fd k)%nat) ->
  conns r = ∅ ->
  NoDup (map Name (interfaces r)) ->
  Start k r = ((Some e, r'), k') ->
  (open k' = open k /\ conns r' = ∅ /\ cancelled r' = true
   /\ sweeper r' = sweeper r /\ loops r' = loops r)
  /\ exists iface cause,
       In iface (interfaces r) /\ e = ErrJoin (Name iface) cause
       /\ (cause = ErrListen \/ cause = ErrSetReadBuffer).
Proof.
  intros Hwf Hempty Hnd HStart. split.
  - exact (Start_failure_distinct_names k r e r' k' Hwf Hempty Hnd HStart).
  - unfold Start in HStart.
    destruct (join_all k r (interfaces r)) as [[[e1 |] r1] k1] eqn:Hjoin;
      [| discriminate].
    injection HStart as <- _ _.
    exact (join_all_error _ _ _ _ _ _ Hjoin).
Qed.

(** X8 on the host: the join of wlan0 fails after eth0 and eth1 were
    joined, and no socket is left open. *)
Lemma failed_Start_releases_its_sockets_witness :
  open (snd (Start host_third_join_fails (built [eth0; eth1; wlan0])))
  = open host_third_join_fails.
Proof.
  destruct (failed_Start_releases_its_sockets host_third_join_fails
              (built [eth0; eth1; wlan0])
              (ErrJoin "wlan0" ErrListen)
              (snd (fst (Start host_third_join_fails
                           (built [eth0; eth1; wlan0]))))
              (snd (Start host_third_join_fails
                      (built [eth0; eth1; wlan0]))))
    as [[Hopen _] _].
  - intros fd [name Hfd]. simpl in Hfd. rewrite lookup_empty in Hfd.
    discriminate.
  - reflexivity.
  - simpl. compute_done.
  - vm_compute. reflexivity.
  - exact Hopen.
Defined.

(** X9. [Start] followed by [Stop] gives back every socket: for
    interfaces with pairwise distinct names, whether [Start] succeeded or
    failed, after the [Stop] the open sockets are exactly those that were
    open before the [Start], and the reflector holds no connection. *)
Theorem Start_then_Stop_restores_sockets (k : Kernel) (r : Reflector) :
  descriptors_fresh k ->
  conns r = ∅ ->
  NoDup (map Name (interfaces r)) ->
  open (snd (Stop (snd (Start k r)) (snd (fst (Start k r))))) = open k
  /\ conns (fst (Stop (snd (Start k r)) (snd (fst (Start k r))))) = ∅.
Proof.
  intros Hwf Hempty Hnd. split; [| reflexivity].
  pose proof (attempt_initial k r Hwf Hempty) as Hat0.
  assert (Hfresh : forall i, i ∈ interfaces r -> conns r !! Name i = None)
    by (intros i _; rewrite Hempty; apply lookup_empty).
  unfold Start.
  destruct (join_all k r (interfaces r)) as [[[e1 |] r1] k1] eqn:Hjoin.
  - destruct (join_all_failure (open k) (interfaces r) k r e1 r1 k1
                Hat0 Hnd Hfresh Hjoin) as (Hopen & Hconns & _).
    cbn [fst snd]. unfold Stop, Stop_close, Stop_cancel. cbn [fst snd conns].
    rewrite Hconns, map_to_list_empty. exact Hopen.
  - destruct (join_all_success (open k) (interfaces r) k r r1 k1)
      as (Hat & _); try assumption.
    { intros name fd H. rewrite Hempty, lookup_empty in H. discriminate. }
    cbn [fst snd]. apply Stop_restores.
    eapply attempt_conns; [exact Hat | reflexivity].
Qed.

(** X9 on the host. *)
Lemma Start_then_Stop_restores_sockets_witness :
  open (snd (Stop (snd (Start host (built [eth0; eth1; wlan0])))
                  (snd (fst (Start host (built [eth0; eth1; wlan0]))))))
  = open host.
Proof.
  destruct (Start_then_Stop_restores_sockets host
              (built [eth0; eth1; wlan0])) as [Hopen _].
  - intros fd [name Hfd]. simpl in Hfd. rewrite lookup_empty in Hfd.
    discriminate.
  - reflexivity.
  - simpl. compute_done.
  - exact Hopen.
Defined.

(** X10. [Stop] closes every socket of [r.conns] and no other socket of
    the system, leaves the reflector cancelled and without connections,
    and a second [Stop] changes nothing more. *)
Theorem Stop_closes_exactly_its_connections (k : Kernel) (r : Reflector) :
  (forall name fd, conns r !! name = Some fd ->
                   open (snd (Stop k r)) !! fd = None)
  /\ (forall fd, (forall name, conns r !! name <> Some fd) ->
                 open (snd (Stop k r)) !! fd = open k !! fd)
  /\ conns (fst (Stop k r)) = ∅
  /\ cancelled (fst (Stop k r)) = true
  /\ Stop (snd (Stop k r)) (fst (Stop k r)) = Stop k r.
Proof.
  split; [apply Stop_closes |]. split; [apply Stop_keeps |].
  split; [reflexivity |]. split; [reflexivity |].
  unfold Stop, Stop_close, Stop_cancel. cbn [fst snd conns].
  rewrite map_to_list_empty. reflexivity.
Qed.

(** X11. Cancellation is for good: a reflector that has been stopped
    stays cancelled through any later [Start] or [Stop]. Started again,
    it joins its sockets, but [reflect] writes nothing and every receive
    loop exits at its first poll without scheduling anything. *)
Theorem stopped_reflector_stays_stopped (k k2 : Kernel) (r : Reflector) :
  cancelled (snd (fst (Start k2 (fst (Stop k r))))) = true
  /\ (forall k3,
        cancelled (fst (Stop k3 (snd (fst (Start k2 (fst (Stop k r)))))))
        = true)
  /\ (forall env srcIface packet,
        reflect env (snd (fst (Start k2 (fst (Stop k r))))) srcIface packet
        = [])
  /\ (forall iface it rest st,
        fst (receiveLoop (snd (fst (Start k2 (fst (Stop k r)))))
               iface (it :: rest) st) = Exited
        /\ scheduled (snd (receiveLoop (snd (fst (Start k2 (fst (Stop k r)))))
                             iface (it :: rest) st))
           = scheduled st).
Proof.
  assert (Hc : cancelled (snd (fst (Start k2 (fst (Stop k r))))) = true).
  { unfold Start.
    pose proof (join_all_cancelled (interfaces (fst (Stop k r))) k2
                  (fst (Stop k r)) eq_refl) as H.
    destruct (join_all k2 (fst (Stop k r)) (interfaces (fst (Stop k r))))
      as [[[e1 |] r1] k1]; exact H. }
  split; [exact Hc |]. split; [reflexivity |]. split.
  - intros env srcIface packet. unfold reflect, reflect_in.
    rewrite Hc. reflexivity.
  - intros iface it rest st. unfold receiveLoop.
    destruct (conns (snd (fst (Start k2 (fst (Stop k r))))) !! Name iface);
      [| split; reflexivity].
    rewrite iterate_exit_top by (rewrite Hc; reflexivity).
    split; [reflexivity | apply log_if_scheduled].
Qed.

(** X12. [joinMulticast] is all or nothing: it either returns a socket
    that was not open before and is now open, joined on the interface,
    with every other socket as it was; or it fails (in
    [ListenMulticastUDP], or in [SetReadBuffer] after the socket was
    opened) and leaves the open sockets exactly as they were. *)
Theorem joinMulticast_all_or_nothing (k : Kernel) (iface : Interface) :
  descriptors_fresh k ->
  match joinMulticast k iface with
  | (inr conn, k1) =>
      open k !! conn = None
      /\ open k1 = <[conn := Name iface]> (open k)
      /\ descriptors_fresh k1
  | (inl err, k1) =>
      open k1 = open k
      /\ (err = ErrListen \/ err = ErrSetReadBuffer)
      /\ descriptors_fresh k1
  end.
Proof.
  intros Hwf.
  assert (Hnone : open k !! next_fd k = None).
  { destruct (open k !! next_fd k) eqn:Hopen; [| reflexivity].
    assert (next_fd k < next_fd k)%nat by (apply Hwf; eauto). lia. }
  unfold joinMulticast, ListenMulticastUDP, SetReadBuffer.
  destruct (hd true (listens k)); simpl.
  - destruct (hd true (setbufs k)); simpl.
    + split; [exact Hnone |]. split; [reflexivity |].
      intros fd Hfd. simpl in Hfd |- *.
      apply lookup_insert_is_Some in Hfd as [<- | [_ Hfd]]; [lia |].
      specialize (Hwf fd Hfd). lia.
    + split; [rewrite delete_insert_eq; apply delete_id, Hnone |].
      split; [right; reflexivity |].
      intros fd Hfd. simpl in Hfd |- *.
      rewrite delete_insert_eq, delete_id in Hfd by exact Hnone.
      specialize (Hwf fd Hfd). lia.
  - split; [reflexivity |]. split; [left; reflexivity |]. exact Hwf.
Qed.

(** X12 on the host: the first join opens socket 3 on eth0. *)
Lemma joinMulticast_all_or_nothing_witness :
  open (snd (joinMulticast host eth0)) = <[3%nat := "eth0"%string]> ∅.
Proof.
  pose proof (joinMulticast_all_or_nothing host eth0) as H.
  change (joinMulticast host eth0)
    with (@inr error nat 3%nat, snd (joinMulticast host eth0)) in H.
  destruct H as (_ & Hopen & _).
  - intros fd [name Hfd]. simpl in Hfd. rewrite lookup_empty in Hfd.
    discriminate.
  - exact Hopen.
Defined.

End LifecycleExtras.

(** ** More on the data path *)

Section DataPathMore.

(** An iteration that gets a packet through both polls asks the cache. *)
Lemma iterate_packet (dbg done : bool) (name : string) (it : Iteration)
    (rest : list Iteration) (st : LoopState) (datagram : list byte) :
  done || cancel_seen_top it = false ->
  read it = ReadData datagram ->
  take (Z.to_nat maxPacketLen) datagram <> [] ->
  done || cancel_seen_after_read it = false ->
  iterate dbg done name (it :: rest) st
  = if fst (isDuplicate (cache st) name
              (take (Z.to_nat maxPacketLen) datagram) (clock it))
    then
      iterate dbg done name rest
        (log_if dbg
           (LogSuppressed (length (take (Z.to_nat maxPacketLen) datagram))
              name)
           (mkLoopState
              (snd (isDuplicate (cache st) name
                      (take (Z.to_nat maxPacketLen) datagram) (clock it)))
              (scheduled st) (logged st)))
    else
      iterate dbg done name rest
        (mkLoopState
           (snd (isDuplicate (cache st) name
                   (take (Z.to_nat maxPacketLen) datagram) (clock it)))
           (scheduled st ++ [(name, take (Z.to_nat maxPacketLen) datagram)])
           (logged
              (log_if dbg
                 (LogReceived
                    (length (take (Z.to_nat maxPacketLen) datagram)) name)
                 (mkLoopState
                    (snd (isDuplicate (cache st) name
                            (take (Z.to_nat maxPacketLen) datagram)
                            (clock it)))
                    (scheduled st) (logged st))))).
Proof.
  intros Htop Hread Hlen Hpost. simpl. rewrite Htop, Hread.
  apply length_zero_nil in Hlen. rewrite Hlen, Hpost.
  destruct (isDuplicate (cache st) name
              (take (Z.to_nat maxPacketLen) datagram) (clock it))
    as [[|] c]; simpl.
  - reflexivity.
  - rewrite log_if_scheduled, log_if_cache. reflexivity.
Qed.

(** The loop keeps reading exactly through iterations that let it. *)
Lemma iterate_reading (dbg done : bool) (name : string)
    (its : list Iteration) (st : LoopState) :
  fst (iterate dbg done name its st) = Reading
  <-> its = [] \/ (done = false /\ Forall keeps_reading its).
Proof.
  revert st. induction its as [| it rest IH]; intros st.
  - simpl. split; [left; reflexivity | reflexivity].
  - assert (Hstep : forall st1,
              done = false -> keeps_reading it ->
              (fst (iterate dbg done name rest st1) = Reading
               <-> it :: rest = []
                   \/ (done = false /\ Forall keeps_reading (it :: rest)))).
    { intros st1 Hd Hk. rewrite IH. split.
      - intros [-> | [_ Hall]]; right; (split; [exact Hd |]);
          constructor; try assumption. constructor.
      - intros [E | [_ Hall]]; [discriminate |].
        apply Forall_cons in Hall as [_ Hall]. right. split; assumption. }
    assert (Hstop : ~ keeps_reading it \/ done = true ->
                    (Exited = Reading
                     <-> it :: rest = []
                         \/ (done = false
                             /\ Forall keeps_reading (it :: rest)))).
    { intros Hno. split; [discriminate |].
      intros [E | [Hd Hall]]; [discriminate |].
      apply Forall_cons in Hall as [Hk _].
      destruct Hno as [Hno | Hno]; [contradiction | congruence]. }
    simpl. destruct done; simpl.
    { apply Hstop. right. reflexivity. }
    destruct (cancel_seen_top it) eqn:Htop.
    { apply Hstop. left. intros [H _]. congruence. }
    destruct (read it) as [| | | datagram] eqn:Hread.
    + apply Hstep; [reflexivity |]. split; [exact Htop |].
      rewrite Hread. exact I.
    + apply Hstop. left. intros [_ H]. rewrite Hread in H. exact H.
    + apply Hstop. left. intros [_ H]. rewrite Hread in H. exact H.
    + destruct (length (take (Z.to_nat maxPacketLen) datagram) =? 0)%nat
        eqn:Hlen.
      { apply Hstep; [reflexivity |]. split; [exact Htop |].
        rewrite Hread. left. apply Nat.eqb_eq in Hlen.
        destruct (take (Z.to_nat maxPacketLen) datagram);
          [reflexivity | discriminate]. }
      destruct (cancel_seen_after_read it) eqn:Hpost.
      { apply Hstop. left. intros [_ H]. rewrite Hread in H.
        apply length_zero_nil in Hlen.
        destruct H as [H | H]; [contradiction | congruence]. }
      assert (Hk : keeps_reading it).
      { split; [exact Htop |]. rewrite Hread. right. exact Hpost. }
      destruct (isDuplicate (cache st) name
                  (take (Z.to_nat maxPacketLen) datagram) (clock it))
        as [[|] c]; apply Hstep; auto.
Qed.

(** Whatever the loop schedules is well formed, and it schedules at most
    one reflection per iteration. *)
Lemma iterate_schedules_well_formed (dbg done : bool) (name : string)
    (its : list Iteration) (st : LoopState) :
  exists new,
    scheduled (snd (iterate dbg done name its st)) = scheduled st ++ new
    /\ Forall (well_formed_task name its) new
    /\ (length new <= length its)%nat.
Proof.
  revert st. induction its as [| it its IH]; intros st.
  - exists []. simpl. rewrite app_nil_r.
    split; [reflexivity |]. split; [constructor | lia].
  - assert (Hnone : exists new : list (string * list byte),
              scheduled st = scheduled st ++ new
              /\ Forall (well_formed_task name (it :: its)) new
              /\ (length new <= length (it :: its))%nat).
    { exists []. rewrite app_nil_r.
      split; [reflexivity |]. split; [constructor | simpl; lia]. }
    assert (Hweaken : forall task,
              well_formed_task name its task ->
              well_formed_task name (it :: its) task).
    { intros task (H1 & H2 & H3 & it' & d & Hin & Hr & Hp).
      split; [exact H1 |]. split; [exact H2 |]. split; [exact H3 |].
      exists it', d. split; [right; exact Hin | split; assumption]. }
    assert (Hlater : forall st1,
              scheduled st1 = scheduled st ->
              exists new,
                scheduled (snd (iterate dbg done name its st1))
                = scheduled st ++ new
                /\ Forall (well_formed_task name (it :: its)) new
                /\ (length new <= length (it :: its))%nat).
    { intros st1 E. destruct (IH st1) as (new & Hs & Hall & Hlen).
      exists new. rewrite Hs, E. split; [reflexivity |].
      split; [eapply Forall_impl; eassumption | simpl; lia]. }
    destruct (done || cancel_seen_top it) eqn:Htop.
    { simpl. rewrite Htop. simpl. rewrite log_if_scheduled. exact Hnone. }
    destruct (read it) as [| | | datagram] eqn:Hread.
    + simpl. rewrite Htop, Hread. apply Hlater. reflexivity.
    + simpl. rewrite Htop, Hread. exact Hnone.
    + simpl. rewrite Htop, Hread. exact Hnone.
    + destruct (length (take (Z.to_nat maxPacketLen) datagram) =? 0)%nat
        eqn:Hlen.
      { simpl. rewrite Htop, Hread, Hlen. apply Hlater. reflexivity. }
      destruct (done || cancel_seen_after_read it) eqn:Hpost.
      { simpl. rewrite Htop, Hread, Hlen, Hpost. simpl.
        rewrite log_if_scheduled. exact Hnone. }
      apply length_zero_nil in Hlen.
      rewrite (iterate_packet dbg done name it its st datagram)
        by assumption.
      destruct (fst (isDuplicate (cache st) name
                       (take (Z.to_nat maxPacketLen) datagram) (clock it))).
      * apply Hlater. rewrite log_if_scheduled. reflexivity.
      * match goal with
        | |- context [iterate dbg done name its ?s] =>
            destruct (IH s) as (new & Hs & Hall & Hle)
        end.
        exists ((name, take (Z.to_nat maxPacketLen) datagram) :: new).
        rewrite Hs. simpl. rewrite <- app_assoc.
        split; [reflexivity |]. split; [| lia].
        constructor.
        -- split; [reflexivity |]. split; [exact Hlen |].
           split; [simpl; rewrite length_take; lia |].
           exists it, datagram. split; [left |].
           split; [exact Hread | apply prefix_take].
        -- eapply Forall_impl; eassumption.
Qed.

(** While the fingerprint of a packet is recorded and has not expired,
    iterations that read that packet again schedule nothing and leave the
    cache as it is. *)
Lemma iterate_suppresses (dbg : bool) (name : string)
    (datagram : list byte) (expireAt : Z) (its : list Iteration)
    (st : LoopState) :
  take (Z.to_nat maxPacketLen) datagram <> [] ->
  entries (cache st)
    !! fingerprint name (take (Z.to_nat maxPacketLen) datagram)
  = Some expireAt ->
  Forall (fun it => reads_live datagram it /\ clock it < expireAt) its ->
  fst (iterate dbg false name its st) = Reading
  /\ scheduled (snd (iterate dbg false name its st)) = scheduled st
  /\ cache (snd (iterate dbg false name its st)) = cache st.
Proof.
  intros Hlen. revert st.
  induction its as [| it its IH]; intros st Hk Hall.
  - repeat split.
  - apply Forall_cons in Hall as [[(Htop & Hpost & Hread) Hclock] Hall].
    rewrite (iterate_packet dbg false name it its st datagram)
      by assumption.
    assert (E : isDuplicate (cache st) name
                  (take (Z.to_nat maxPacketLen) datagram) (clock it)
                = (true, cache st)).
    { unfold isDuplicate. rewrite Hk.
      replace (clock it <? expireAt) with true
        by (symmetry; apply Z.ltb_lt; exact Hclock).
      reflexivity. }
    rewrite E. cbn [fst snd].
    destruct (IH (log_if dbg
                    (LogSuppressed
                       (length (take (Z.to_nat maxPacketLen) datagram)) name)
                    (mkLoopState (cache st) (scheduled st) (logged st))))
      as (H1 & H2 & H3).
    + rewrite log_if_cache. exact Hk.
    + exact Hall.
    + rewrite H1, H2, H3, log_if_scheduled, log_if_cache. repeat split.
Qed.

End DataPathMore.

Section DataPathExtras.

(** The destinations of a packet are the connections other than the
    ingress one. *)
Lemma destinations_delete (m : gmap string nat) (srcIface : string)
    (order : list (string * nat)) :
  order ≡ₚ map_to_list m ->
  destinations srcIface order ≡ₚ map_to_list (delete srcIface m).
Proof.
  intros Hperm. apply NoDup_Permutation.
  - unfold destinations. apply NoDup_filter. rewrite Hperm.
    apply NoDup_map_to_list.
  - apply NoDup_map_to_list.
  - intros [name c]. unfold destinations.
    rewrite list_elem_of_filter, Hperm, !elem_of_map_to_list.
    rewrite lookup_delete_Some. simpl. split; intros [H1 H2]; split; auto.
Qed.

(** The writes of the loop are an initial run of its destinations. *)
Lemma fanout_writes_prefix (env : FanoutEnv) (dbg : bool)
    (srcIface : string) (packet : list byte)
    (order : list (string * nat)) :
  writes (fanout env dbg srcIface packet order)
    `prefix_of` map (write_to packet) (destinations srcIface order).
Proof.
  unfold destinations.
  induction order as [| [ifaceName conn] rest IH]; [apply prefix_nil |].
  destruct (decide (ifaceName = srcIface)) as [-> | Hne].
  - rewrite fanout_ingress, filter_cons_False by (simpl; tauto). exact IH.
  - rewrite fanout_destination, filter_cons_True by exact Hne.
    rewrite writes_cons_write, writes_after_destination.
    apply prefix_cons.
    destruct (write_fails env ifaceName && cancel_seen_on_error env ifaceName);
      [apply prefix_nil | exact IH].
Qed.


(** X14. A packet is written at most once per connection other than the
    ingress one: at most n - 1 times with n connections when the ingress
    interface is one of them, and exactly that often when no cancellation
    is seen, whatever the writes return. *)
Theorem reflect_write_count (env : FanoutEnv) (r : Reflector)
    (srcIface : string) (packet : list byte)
    (order : list (string * nat)) :
  order ≡ₚ map_to_list (conns r) ->
  (length (writes (reflect_in order env r srcIface packet))
   <= size (delete srcIface (conns r)))%nat
  /\ (is_Some (conns r !! srcIface) ->
      size (delete srcIface (conns r)) = (size (conns r) - 1)%nat)
  /\ (cancelled r = false ->
      (forall ifaceName, cancel_seen_on_error env ifaceName = false) ->
      length (writes (reflect_in order env r srcIface packet))
      = size (delete srcIface (conns r))).
Proof.
  intros Hperm.
  assert (Hlen : length (map (write_to packet) (destinations srcIface order))
                 = size (delete srcIface (conns r))).
  { rewrite length_map, (destinations_delete (conns r) srcIface order Hperm).
    apply length_map_to_list. }
  split; [| split].
  - rewrite <- Hlen. apply prefix_length. unfold reflect_in.
    destruct (cancelled r); [apply prefix_nil | apply fanout_writes_prefix].
  - intros Hsrc. rewrite map_size_delete_Some by exact Hsrc. lia.
  - intros Hlive Hnone. unfold reflect_in. rewrite Hlive.
    rewrite fanout_writes_all by exact Hnone. exact Hlen.
Qed.

(** X14 on the running reflector: a query from eth0 is written twice. *)
Lemma reflect_write_count_witness :
  length (writes (reflect calm running "eth0" query)) = 2%nat.
Proof.
  destruct (reflect_write_count calm running "eth0" query
              (map_to_list (conns running)) (reflexivity _))
    as (_ & _ & Hexact).
  unfold reflect. rewrite Hexact by reflexivity.
  vm_compute. reflexivity.
Defined.

(** X15. Whatever a receive loop reads, every reflection it schedules is
    for a non-empty packet of at most [maxPacketLen] (9000) bytes that is
    the beginning of a datagram it read, under the name of the loop's own
    interface; and it schedules at most one reflection per read. *)
Theorem scheduled_packets_are_well_formed (r : Reflector)
    (iface : Interface) (its : list Iteration) (st : LoopState) :
  exists new,
    scheduled (snd (receiveLoop r iface its st)) = scheduled st ++ new
    /\ Forall (well_formed_task (Name iface) its) new
    /\ (length new <= length its)%nat.
Proof.
  unfold receiveLoop. destruct (conns r !! Name iface).
  - apply iterate_schedules_well_formed.
  - exists []. simpl. rewrite app_nil_r.
    split; [reflexivity |]. split; [constructor | lia].
Qed.

(** X16. A burst is reflected once: when a receive loop with a live
    context reads the same non-empty datagram several times, the first
    time with nothing recorded under its fingerprint and every later time
    less than one dedup window after the first, it schedules exactly one
    reflection of that packet and keeps reading. *)
Theorem burst_is_reflected_once (r : Reflector) (iface : Interface)
    (first : Iteration) (rest : list Iteration) (datagram : list byte)
    (st : LoopState) :
  is_Some (conns r !! Name iface) ->
  cancelled r = false ->
  take (Z.to_nat maxPacketLen) datagram <> [] ->
  Forall (reads_live datagram) (first :: rest) ->
  entries (cache st)
    !! fingerprint (Name iface) (take (Z.to_nat maxPacketLen) datagram)
  = None ->
  Forall (fun it => clock it < clock first + dedupWindow) rest ->
  fst (receiveLoop r iface (first :: rest) st) = Reading
  /\ scheduled (snd (receiveLoop r iface (first :: rest) st))
     = scheduled st
       ++ [(Name iface, take (Z.to_nat maxPacketLen) datagram)].
Proof.
  intros [conn Hconn] Hlive Hlen Hall Hfresh Hclock.
  unfold receiveLoop. rewrite Hconn, Hlive.
  apply Forall_cons in Hall as [(Htop & Hpost & Hread) Hall].
  rewrite (iterate_packet (debug r) false (Name iface) first rest st
             datagram) by assumption.
  assert (E : isDuplicate (cache st) (Name iface)
                (take (Z.to_nat maxPacketLen) datagram) (clock first)
              = (false,
                 mkCache
                   (<[fingerprint (Name iface)
                        (take (Z.to_nat maxPacketLen) datagram)
                      := clock first + dedupWindow]> (entries (cache st))))).
  { unfold isDuplicate. rewrite Hfresh. reflexivity. }
  rewrite E. cbn [fst snd].
  match goal with
  | |- context [iterate (debug r) false (Name iface) rest ?s] =>
      destruct (iterate_suppresses (debug r) (Name iface) datagram
                  (clock first + dedupWindow) rest s) as (H1 & H2 & _)
  end.
  - exact Hlen.
  - simpl. apply lookup_insert_eq.
  - rewrite Forall_forall in Hall, Hclock |- *.
    intros it Hin. split; [apply Hall | apply Hclock]; exact Hin.
  - rewrite H1, H2. split; reflexivity.
Qed.

(** X16 on the loop of eth0: a query read at 0s, 0.2s and 0.9s is
    scheduled once. *)
Lemma burst_is_reflected_once_witness :
  scheduled
    (snd (receiveLoop running eth0
            [mkIteration false (ReadData query) false 0;
             mkIteration false (ReadData query) false 200000000;
             mkIteration false (ReadData query) false 900000000]
            (mkLoopState newDedupCache [] [])))
  = [("eth0"%string, query)].
Proof.
  destruct (burst_is_reflected_once running eth0
              (mkIteration false (ReadData query) false 0)
              [mkIteration false (ReadData query) false 200000000;
               mkIteration false (ReadData query) false 900000000]
              query (mkLoopState newDedupCache [] []))
    as [_ Hsched].
  - eexists. vm_compute. reflexivity.
  - reflexivity.
  - vm_compute. discriminate.
  - repeat constructor.
  - reflexivity.
  - repeat constructor; vm_compute; reflexivity.
  - exact Hsched.
Defined.

(** X17. A receive loop goes on reading exactly as long as it has a
    connection, no poll finds the context cancelled and no read fails
    with anything but a timeout: timeouts, empty datagrams and duplicates
    never end it, while a closed socket, any other read error or a poll
    that sees cancellation ends it for good. *)
Theorem receiveLoop_keeps_reading_iff (r : Reflector) (iface : Interface)
    (its : list Iteration) (st : LoopState) :
  fst (receiveLoop r iface its st) = Reading
  <-> is_Some (conns r !! Name iface)
      /\ (its = [] \/ (cancelled r = false /\ Forall keeps_reading its)).
Proof.
  unfold receiveLoop. destruct (conns r !! Name iface) as [conn |].
  - rewrite iterate_reading. split.
    + intros H. split; [eexists; reflexivity | exact H].
    + intros [_ H]. exact H.
  - simpl. split; [discriminate |].
    intros [[conn H] _]. discriminate.
Qed.

End DataPathExtras.

(** ** The command line *)

Section MainFacts.

Lemma resolve_names (k : Kernel) (ifaceNames : list string)
    (acc l : list Interface) :
  resolve k ifaceNames acc = inr l ->
  exists ifs, l = acc ++ ifs /\ map Name ifs = ifaceNames.
Proof.
  revert acc. induction ifaceNames as [| name rest IH]; intros acc.
  - simpl. intros E. injection E as <-. exists []. rewrite app_nil_r.
    split; reflexivity.
  - simpl. destruct (InterfaceByName k name) as [i |] eqn:Hi; [| discriminate].
    destruct (Z.land (Flags i) FlagUp =? 0); [discriminate |].
    destruct (Z.land (Flags i) FlagMulticast =? 0); [discriminate |].
    intros E. destruct (IH _ E) as (ifs & -> & Hn).
    exists (i :: ifs). rewrite <- app_assoc. split; [reflexivity |].
    simpl. rewrite Hn. f_equal. eapply InterfaceByName_Name, Hi.
Qed.

Lemma resolve_error (k : Kernel) (ifaceNames : list string)
    (acc : list Interface) (e : error) :
  resolve k ifaceNames acc = inl e -> is_configuration_error e = true.
Proof.
  revert acc. induction ifaceNames as [| name rest IH]; intros acc.
  - discriminate.
  - simpl. destruct (InterfaceByName k name) as [i |].
    2: { intros E. injection E as <-. reflexivity. }
    destruct (Z.land (Flags i) FlagUp =? 0).
    { intros E. injection E as <-. reflexivity. }
    destruct (Z.land (Flags i) FlagMulticast =? 0).
    { intros E. injection E as <-. reflexivity. }
    apply IH.
Qed.

(** What [NewReflector] returns when it succeeds. *)
Lemma NewReflector_built (k k1 : Kernel) (ifaceNames : list string)
    (dbg : bool) (r : Reflector) :
  NewReflector k ifaceNames dbg = (inr r, k1) ->
  k1 = k /\ conns r = ∅ /\ map Name (interfaces r) = ifaceNames
  /\ cancelled r = false /\ (2 <= length ifaceNames)%nat.
Proof.
  unfold NewReflector.
  destruct (resolve k ifaceNames []) as [e | ifs] eqn:Hres; [discriminate |].
  destruct (resolve_names k ifaceNames [] ifs Hres) as (ifs' & -> & Hn).
  simpl in *.
  destruct (Nat.ltb_spec (length ifs') 2); [discriminate |].
  intros E. injection E as <- <-. simpl.
  repeat split; try assumption.
  rewrite <- Hn, length_map. assumption.
Qed.

(** What [NewReflector] returns when it fails. *)
Lemma NewReflector_error (k k1 : Kernel) (ifaceNames : list string)
    (dbg : bool) (e : error) :
  NewReflector k ifaceNames dbg = (inl e, k1) ->
  k1 = k /\ is_configuration_error e = true.
Proof.
  unfold NewReflector.
  destruct (resolve k ifaceNames []) as [e1 | ifs] eqn:Hres.
  - intros E. injection E as <- <-. split; [reflexivity |].
    eapply resolve_error, Hres.
  - destruct (length ifs <? 2)%nat; [| discriminate].
    intros E. injection E as <- <-. split; reflexivity.
Qed.

(** What [Start] leaves of the sockets, for pairwise distinct names. *)
Lemma Start_sockets (k : Kernel) (r : Reflector) :
  descriptors_fresh k -> conns r = ∅ ->
  NoDup (map Name (interfaces r)) ->
  match fst (fst (Start k r)) with
  | Some _ => open (snd (Start k r)) = open k
  | None => attempt (open k) (snd (Start k r)) (snd (fst (Start k r)))
  end.
Proof.
  intros Hwf Hempty Hnd.
  pose proof (attempt_initial k r Hwf Hempty) as Hat0.
  assert (Hfresh : forall i, i ∈ interfaces r -> conns r !! Name i = None)
    by (intros i _; rewrite Hempty; apply lookup_empty).
  unfold Start.
  destruct (join_all k r (interfaces r)) as [[[e1 |] r1] k1] eqn:Hjoin.
  - cbn [fst snd].
    apply (join_all_failure (open k) (interfaces r) k r e1 r1 k1);
      assumption.
  - cbn [fst snd].
    destruct (join_all_success (open k) (interfaces r) k r r1 k1)
      as (Hat & _); try assumption.
    { intros name fd H. rewrite Hempty, lookup_empty in H. discriminate. }
    eapply attempt_conns; [exact Hat | reflexivity].
Qed.

Lemma Split_length (s : string) : length (Main.Split s) = S (commas s).
Proof.
  induction s as [| c rest IH]; [reflexivity |].
  simpl. destruct (Ascii.eqb c ","); simpl.
  - rewrite IH. reflexivity.
  - destruct (Main.Split rest) as [| piece pieces]; [discriminate |].
    simpl in *. exact IH.
Qed.

End MainFacts.

Section MainExtras.

Variable TrimSpace : string -> string.
Variable Addrs : Interface -> list string.

(** X18. However [main] ends, it leaves no socket behind: when the names
    given with [-i] are pairwise distinct (once trimmed), the sockets open
    when [main] ends are exactly those that were open when it began,
    whether it printed something, refused the flags, failed in
    [NewReflector] or in [Start], or ran and was stopped; and a reflector
    that ran ends cancelled, without connections. *)
Theorem main_leaves_no_socket (listing : option (list Interface))
    (k : Kernel) (o : Main.Options) :
  descriptors_fresh k ->
  NoDup (Main.ifaceNames TrimSpace o) ->
  open (snd (Main.main TrimSpace Addrs listing k o)) = open k
  /\ (forall r, fst (Main.main TrimSpace Addrs listing k o) = Main.Stopped r ->
                conns r = ∅ /\ cancelled r = true).
Proof.
  intros Hwf Hnd. unfold Main.main.
  destruct (Main.showVersion o); [split; [reflexivity | discriminate] |].
  destruct (Main.showIfaces o).
  { split; [reflexivity |].
    intros r. destruct (Main.listInterfaces Addrs listing); discriminate. }
  destruct (decide (Main.opt_interfaces o = EmptyString));
    [split; [reflexivity | discriminate] |].
  destruct (NewReflector k (Main.ifaceNames TrimSpace o) (Main.opt_debug o))
    as [[e | r] k1] eqn:Hnew.
  { apply NewReflector_error in Hnew as [-> _].
    split; [reflexivity | discriminate]. }
  apply NewReflector_built in Hnew as (-> & Hempty & Hnames & _).
  pose proof (Start_sockets k r Hwf Hempty) as Hstart.
  rewrite Hnames in Hstart. specialize (Hstart Hnd).
  destruct (Start k r) as [[[e |] r1] k2]; cbn [fst snd] in Hstart.
  - split; [exact Hstart | discriminate].
  - pose proof (Stop_restores (open k) k2 r1 Hstart) as Hopen.
    pose proof (Stop_reflector k2 r1) as (Hc & Hcan & _).
    destruct (Stop k2 r1) as [r2 k3]. cbn [fst snd] in *.
    split; [exact Hopen |].
    intros r' E. injection E as <-. split; assumption.
Qed.

(** X19. [main] hands [NewReflector] one name more than the [-i] value
    has commas; so with a value without a comma (a single name) it never
    starts a reflector: it ends with the usage error or with a
    configuration error of [NewReflector], and opens no socket. *)
Theorem main_needs_two_names (listing : option (list Interface))
    (k : Kernel) (o : Main.Options) :
  length (Main.ifaceNames TrimSpace o) = S (commas (Main.opt_interfaces o))
  /\ (commas (Main.opt_interfaces o) = 0%nat ->
      Main.showVersion o = false -> Main.showIfaces o = false ->
      snd (Main.main TrimSpace Addrs listing k o) = k
      /\ (fst (Main.main TrimSpace Addrs listing k o) = Main.NoInterfaces
          \/ exists e,
               fst (Main.main TrimSpace Addrs listing k o)
               = Main.CreateFailed e
               /\ is_configuration_error e = true)).
Proof.
  assert (Hlen : length (Main.ifaceNames TrimSpace o)
                 = S (commas (Main.opt_interfaces o))).
  { unfold Main.ifaceNames. rewrite length_map. apply Split_length. }
  split; [exact Hlen |].
  intros Hnone Hv Hl. unfold Main.main. rewrite Hv, Hl.
  destruct (decide (Main.opt_interfaces o = EmptyString));
    [split; [reflexivity | left; reflexivity] |].
  destruct (NewReflector k (Main.ifaceNames TrimSpace o) (Main.opt_debug o))
    as [[e | r] k1] eqn:Hnew.
  - apply NewReflector_error in Hnew as [-> He].
    split; [reflexivity |]. right. exists e. split; [reflexivity | exact He].
  - apply NewReflector_built in Hnew as (_ & _ & _ & _ & Htwo).
    rewrite Hlen, Hnone in Htwo. lia.
Qed.

End MainExtras.

(** X18 on the host, for [-i eth0,wlan0] and a [TrimSpace] that finds
    nothing to trim. *)
Lemma main_leaves_no_socket_witness :
  open (snd (Main.main (fun s => s) (fun _ => []) None host
               (Main.mkOptions "eth0,wlan0" false false false)))
  = open host.
Proof.
  destruct (main_leaves_no_socket (fun s => s) (fun _ => []) None host
              (Main.mkOptions "eth0,wlan0" false false false))
    as [Hopen _].
  - intros fd [name Hfd]. simpl in Hfd. rewrite lookup_empty in Hfd.
    discriminate.
  - compute_done.
  - exact Hopen.
Defined.

(** X19 on the host, for [-i eth0]. *)
Lemma main_needs_two_names_witness :
  exists e,
    fst (Main.main (fun s => s) (fun _ => []) None host
           (Main.mkOptions "eth0" false false false))
    = Main.CreateFailed e
    /\ is_configuration_error e = true.
Proof.
  destruct (main_needs_two_names (fun s => s) (fun _ => []) None host
              (Main.mkOptions "eth0" false false false))
    as [_ Hsingle].
  destruct (Hsingle eq_refl eq_refl eq_refl) as [_ [Hno | Hcreate]].
  - discriminate.
  - exact Hcreate.
Defined.

Section ListingExtras.





End ListingExtras.

(** ** The debug flag and the errors of construction *)

Section DebugFacts.

Lemma fanout_writes_debug (env : FanoutEnv) (dbg1 dbg2 : bool)
    (srcIface : string) (packet : list byte)
    (order : list (string * nat)) :
  writes (fanout env dbg1 srcIface packet order)
  = writes (fanout env dbg2 srcIface packet order).
Proof.
  induction order as [| [ifaceName conn] rest IH]; [reflexivity |].
  destruct (decide (ifaceName = srcIface)) as [-> | Hne].
  - rewrite !fanout_ingress. exact IH.
  - rewrite !fanout_destination by exact Hne.
    rewrite !writes_cons_write, !writes_after_destination, IH. reflexivity.
Qed.

Lemma fanout_quiet (env : FanoutEnv) (srcIface : string)
    (packet : list byte) (order : list (string * nat)) :
  forallb quiet_event (fanout env false srcIface packet order) = true.
Proof.
  induction order as [| [ifaceName conn] rest IH]; [reflexivity |].
  destruct (decide (ifaceName = srcIface)) as [-> | Hne].
  - rewrite fanout_ingress. exact IH.
  - rewrite fanout_destination by exact Hne. simpl.
    destruct (write_fails env ifaceName);
      [destruct (cancel_seen_on_error env ifaceName) |]; simpl;
      try reflexivity; exact IH.
Qed.

(** The debug flag changes neither what the loop does next, nor the
    cache, nor what it schedules. *)
Lemma iterate_debug (dbg1 dbg2 done : bool) (name : string)
    (its : list Iteration) (st1 st2 : LoopState) :
  cache st1 = cache st2 -> scheduled st1 = scheduled st2 ->
  fst (iterate dbg1 done name its st1) = fst (iterate dbg2 done name its st2)
  /\ cache (snd (iterate dbg1 done name its st1))
     = cache (snd (iterate dbg2 done name its st2))
  /\ scheduled (snd (iterate dbg1 done name its st1))
     = scheduled (snd (iterate dbg2 done name its st2)).
Proof.
  revert st1 st2. induction its as [| it its IH]; intros st1 st2 Hc Hs.
  - repeat split; assumption.
  - simpl. destruct (done || cancel_seen_top it).
    { simpl. rewrite !log_if_cache, !log_if_scheduled.
      repeat split; assumption. }
    destruct (read it) as [| | | datagram].
    + apply IH; assumption.
    + repeat split; assumption.
    + simpl. repeat split; assumption.
    + destruct (length (take (Z.to_nat maxPacketLen) datagram) =? 0)%nat;
        [apply IH; assumption |].
      destruct (done || cancel_seen_after_read it).
      { simpl. rewrite !log_if_cache, !log_if_scheduled.
        repeat split; assumption. }
      rewrite Hc.
      destruct (isDuplicate (cache st2) name
                  (take (Z.to_nat maxPacketLen) datagram) (clock it))
        as [[|] c].
      * apply IH; rewrite ?log_if_cache, ?log_if_scheduled; simpl;
          [reflexivity | exact Hs].
      * apply IH; simpl; rewrite ?log_if_cache, ?log_if_scheduled; simpl;
          [reflexivity | rewrite Hs; reflexivity].
Qed.

(** Without the debug flag the loop logs nothing but a read error. *)
Lemma iterate_quiet (done : bool) (name : string) (its : list Iteration)
    (st : LoopState) :
  exists new,
    logged (snd (iterate false done name its st)) = logged st ++ new
    /\ forallb is_error_line new = true.
Proof.
  revert st. induction its as [| it its IH]; intros st.
  - exists []. simpl. rewrite app_nil_r. split; reflexivity.
  - assert (Hnone : exists new, logged st = logged st ++ new
                                /\ forallb is_error_line new = true).
    { exists []. rewrite app_nil_r. split; reflexivity. }
    simpl. destruct (done || cancel_seen_top it); [exact Hnone |].
    destruct (read it) as [| | | datagram].
    + apply IH.
    + exact Hnone.
    + exists [LogReadError name]. split; reflexivity.
    + destruct (length (take (Z.to_nat maxPacketLen) datagram) =? 0)%nat;
        [apply IH |].
      destruct (done || cancel_seen_after_read it); [exact Hnone |].
      destruct (isDuplicate (cache st) name
                  (take (Z.to_nat maxPacketLen) datagram) (clock it))
        as [[|] c]; simpl.
      * destruct (IH (mkLoopState c (scheduled st) (logged st)))
          as (new & H1 & H2). exists new. split; assumption.
      * destruct (IH (mkLoopState c
                        (scheduled st
                         ++ [(name, take (Z.to_nat maxPacketLen) datagram)])
                        (logged st))) as (new & H1 & H2).
        exists new. split; assumption.
Qed.

(** The loop of [NewReflector] stops at the first name that is not
    usable, with the error of the first check that name fails. *)
Lemma resolve_first_unusable (k : Kernel) (good : list string)
    (bad : string) (rest : list string) (acc : list Interface) :
  Forall (usable k) good -> ~ usable k bad ->
  resolve k (good ++ bad :: rest) acc = inl (unusable_error k bad).
Proof.
  intros Hgood Hbad. revert acc.
  induction good as [| name good IH]; intros acc.
  - simpl. unfold unusable_error.
    destruct (InterfaceByName k bad) as [i |] eqn:Hi; [| reflexivity].
    destruct (Z.land (Flags i) FlagUp =? 0) eqn:Hup.
    + destruct (Z.testbit (Flags i) 0) eqn:Hbit; [| reflexivity].
      assert (Hu : is_up i) by exact Hbit.
      apply up_test in Hu. congruence.
    + assert (Hu : is_up i) by (apply up_test; exact Hup).
      unfold is_up in Hu. rewrite Hu.
      destruct (Z.land (Flags i) FlagMulticast =? 0) eqn:Hmc;
        [reflexivity |].
      exfalso. apply Hbad. exists i. split; [exact Hi |].
      split; [exact Hu | apply multicast_test; exact Hmc].
  - apply Forall_cons in Hgood as [(i & Hi & Hup & Hmc) Hgood].
    simpl. rewrite Hi.
    apply up_test in Hup. apply multicast_test in Hmc. rewrite Hup, Hmc.
    apply IH, Hgood.
Qed.

End DebugFacts.

Section DebugExtras.

(** X21. The debug flag changes nothing but the log: with it on or off,
    [reflect] makes the same writes and a receive loop ends the same way,
    leaves the same dedup cache and schedules the same reflections. With
    it off, [reflect] logs only failed writes and a receive loop only a
    read error. *)
Theorem debug_only_changes_the_log (dbg : bool) (r : Reflector)
    (env : FanoutEnv) (order : list (string * nat)) (srcIface : string)
    (packet : list byte) (iface : Interface) (its : list Iteration)
    (st : LoopState) :
  writes (reflect_in order env (with_debug dbg r) srcIface packet)
  = writes (reflect_in order env r srcIface packet)
  /\ fst (receiveLoop (with_debug dbg r) iface its st)
     = fst (receiveLoop r iface its st)
  /\ cache (snd (receiveLoop (with_debug dbg r) iface its st))
     = cache (snd (receiveLoop r iface its st))
  /\ scheduled (snd (receiveLoop (with_debug dbg r) iface its st))
     = scheduled (snd (receiveLoop r iface its st))
  /\ forallb quiet_event
       (reflect_in order env (with_debug false r) srcIface packet) = true
  /\ exists new,
       logged (snd (receiveLoop (with_debug false r) iface its st))
       = logged st ++ new
       /\ forallb is_error_line new = true.
Proof.
  split; [| split; [| split; [| split; [| split]]]].
  - unfold reflect_in, with_debug. simpl.
    destruct (cancelled r); [reflexivity | apply fanout_writes_debug].
  - unfold receiveLoop, with_debug. simpl.
    destruct (conns r !! Name iface); [| reflexivity].
    apply iterate_debug; reflexivity.
  - unfold receiveLoop, with_debug. simpl.
    destruct (conns r !! Name iface); [| reflexivity].
    apply iterate_debug; reflexivity.
  - unfold receiveLoop, with_debug. simpl.
    destruct (conns r !! Name iface); [| reflexivity].
    apply iterate_debug; reflexivity.
  - unfold reflect_in, with_debug. simpl.
    destruct (cancelled r); [reflexivity | apply fanout_quiet].
  - unfold receiveLoop, with_debug. simpl.
    destruct (conns r !! Name iface).
    + apply iterate_quiet.
    + exists []. simpl. rewrite app_nil_r. split; reflexivity.
Qed.

(** X22. [NewReflector] reports the first name of the list that is not
    usable, and for that name the first check it fails: not found, then
    down, then no multicast (a name that is both down and without
    multicast is reported down). When every name is usable but there are
    fewer than two, the error carries their number. *)
Theorem NewReflector_reports_the_first_unusable (k : Kernel)
    (dbg : bool) :
  (forall good bad rest,
     Forall (usable k) good -> ~ usable k bad ->
     fst (NewReflector k (good ++ bad :: rest) dbg)
     = inl (unusable_error k bad))
  /\ (forall ifaceNames,
        Forall (usable k) ifaceNames -> (length ifaceNames < 2)%nat ->
        fst (NewReflector k ifaceNames dbg)
        = inl (ErrTooFew (length ifaceNames))).
Proof.
  split.
  - intros good bad rest Hgood Hbad. unfold NewReflector.
    rewrite (resolve_first_unusable k good bad rest [] Hgood Hbad).
    reflexivity.
  - intros ifaceNames Hall Hshort. unfold NewReflector.
    destruct (resolve_usable k ifaceNames [] Hall) as (ifs & E & Hn).
    simpl in E. rewrite E.
    assert (Hlen : length ifs = length ifaceNames)
      by (rewrite <- Hn; symmetry; apply length_map).
    rewrite Hlen.
    replace (length ifaceNames <? 2)%nat with true
      by (symmetry; apply Nat.ltb_lt; exact Hshort).
    reflexivity.
Qed.

(** X22 on the host: of eth0, tun9 and eth5 the unknown tun9 is
    reported. *)
Lemma NewReflector_reports_the_first_unusable_witness :
  fst (NewReflector host ["eth0"; "tun9"; "eth5"]%string false)
  = inl (ErrNotFound "tun9").
Proof.
  destruct (NewReflector_reports_the_first_unusable host false)
    as [Hfirst _].
  apply (Hfirst ["eth0"%string] "tun9"%string ["eth5"%string]).
  - repeat constructor. exists eth0. repeat split.
  - intros (i & Hi & _). discriminate.
Defined.

End DebugExtras.
